(** * GrootFSM: the finite-state-machine engine of [fsm/base.py]

    A shallow embedding of the classes [State], [Transition] and [FSM] and
    of the exception [FSMException], followed by the properties of the
    engine: construction and its validation, the two ways of executing a
    transition, the order of the hooks, and the shape of the lookup
    structure. *)

From stdpp Require Import base strings gmap list fin_maps.

(** ** Exceptions *)

(** [FSMException] is the only exception class of the engine; its instances
    differ by the message they are built with.  There is one constructor per
    [raise] statement of [base.py]; the arguments are the values the message
    is formatted with. *)
Inductive FSMException : Type :=
| DuplicateState                                   (* _validate_and_add_state *)
| InvalidSource (source_name name : string)        (* _validate_and_add_transition *)
| InvalidDestination (destination_name name : string)
| DuplicateEdge (source_name destination_name : string)
| DuplicateTransitionName (name source_name : string)
| IncorrectInitialState                            (* _validate_and_set_initial_state *)
| InvalidTransition (transition_name state : string)   (* execute_transition *)
| InvalidState (destination_name : string)         (* execute_transition_to *)
| NoTransitionBetween (state destination_name : string).

(** The text each [raise] passes to [FSMException(message)]. *)
Definition message (e : FSMException) : string :=
  match e with
  | DuplicateState => "State name must be unique, cannot add duplicate."
  | InvalidSource s n => "Invalid source state:" +:+ s +:+ " in transition:" +:+ n
  | InvalidDestination d n =>
      "Invalid destination state:" +:+ d +:+ " in transition:" +:+ n
  | DuplicateEdge s d =>
      "Transition between source:" +:+ s +:+ " and destination:" +:+ d
        +:+ " already exists."
  | DuplicateTransitionName n s =>
      "Duplication transition:" +:+ n +:+ " from source:" +:+ s
  | IncorrectInitialState =>
      "Incorrect initial state. Set a valid initial state name."
  | InvalidTransition n s => "Invalid transition:" +:+ n +:+ " from source:" +:+ s
  | InvalidState d => "Cannot execute transition. Invalid state:" +:+ d
  | NoTransitionBetween s d =>
      "Invalid transition between source:" +:+ s +:+ " and destination:" +:+ d
  end.

(** The error taxonomy of the specification (section 7). *)
Inductive ErrorKind : Type :=
| DuplicateStateError
| UnknownStateError
| DuplicateEdgeError
| DuplicateTransitionNameError
| InvalidInitialStateError
| UnknownTransitionError.

Global Instance ErrorKind_eq_dec : EqDecision ErrorKind.
Proof. solve_decision. Defined.

(** Which entry of the taxonomy each [raise] of the code stands for. *)
Definition kind (e : FSMException) : ErrorKind :=
  match e with
  | DuplicateState => DuplicateStateError
  | InvalidSource _ _ | InvalidDestination _ _ | InvalidState _ => UnknownStateError
  | DuplicateEdge _ _ => DuplicateEdgeError
  | DuplicateTransitionName _ _ => DuplicateTransitionNameError
  | IncorrectInitialState => InvalidInitialStateError
  | InvalidTransition _ _ | NoTransitionBetween _ _ => UnknownTransitionError
  end.

Section Engine.

(** [Value] is the type of the values of a keyword payload, [World] is
    everything the hooks can read and write outside the engine, and
    [UserExn] is what a hook can raise. *)
Context {Value World UserExn : Type}.

(** What a Python call can raise here: the engine's own exception, the
    interpreter's [AttributeError] ([None.get]), [KeyError] ([d[k]] on a
    missing key) and [TypeError] (a keyword given twice), or whatever a hook
    raises. *)
Inductive PyExn : Type :=
| FSMExc (e : FSMException)
| AttributeError
| KeyError (k : string)
| TypeError
| HookExc (e : UserExn).

Inductive result (A : Type) : Type :=
| Ok (a : A)
| Raise (e : PyExn).
Global Arguments Ok {A} a.
Global Arguments Raise {A} e.

(** Sequencing of calls that can raise: the first exception ends the
    computation. *)
Global Instance result_ret : MRet result := λ A a, Ok a.
Global Instance result_bind : MBind result := λ A B k r,
  match r with
  | Ok a => k a
  | Raise e => Raise e
  end.

(** ** Payload and hooks *)

(** The payload [kwargs]: a dictionary from keyword to value. *)
Definition kwargs : Type := gmap string Value.

(** A hook is user code.  It is called with the payload; it can read the
    engine's [state] property, and read and write the world.  It returns
    normally (its value is dropped) or raises; the world it leaves behind
    is kept in both cases. *)
Definition callback : Type := kwargs → string → World → result unit * World.

(** ** class State *)

Record State : Type := mkState {
  State_name : string;
  _before_exit : option callback;
  _after_entry : option callback;
}.

(** [if self._before_exit: self._before_exit( **kwargs )] *)
Definition State_exit_state (self : State) (kw : kwargs)
    (observed : string) (w : World) : result unit * World :=
  match _before_exit self with
  | Some f => f kw observed w
  | None => (Ok (), w)
  end.

(** [if self._after_entry: self._after_entry( **kwargs )] *)
Definition State_enter_state (self : State) (kw : kwargs)
    (observed : string) (w : World) : result unit * World :=
  match _after_entry self with
  | Some f => f kw observed w
  | None => (Ok (), w)
  end.

(** ** class Transition *)

Record Transition : Type := mkTransition {
  Transition_name : string;
  source_name : string;
  destination_name : string;
  _on_transition : option callback;
}.

(** [if self._on_transition: self._on_transition( **kwargs )] *)
Definition Transition_execute (self : Transition) (kw : kwargs)
    (observed : string) (w : World) : result unit * World :=
  match _on_transition self with
  | Some f => f kw observed w
  | None => (Ok (), w)
  end.

(** ** class FSM: the lookup structure *)

(** One value of [_state_transition_map]: the dictionary with the keys
    ['state'], ['transitions'] and ['destination_states']. *)
Record Entry : Type := mkEntry {
  state : State;
  transitions : gmap string Transition;
  destination_states : gmap string Transition;
}.

Record FSM : Type := mkFSM {
  _state : string;
  _state_transition_map : gmap string Entry;
}.

(** [d.get(k).get(...)]: [d.get(k)] is [None] for a missing key, and
    [None.get] raises [AttributeError]. *)
Definition get_entry (m : gmap string Entry) (k : string) : result Entry :=
  match m !! k with
  | Some e => Ok e
  | None => Raise AttributeError
  end.

(** [d[k]] raises [KeyError] for a missing key. *)
Definition getitem (m : gmap string Entry) (k : string) : result Entry :=
  match m !! k with
  | Some e => Ok e
  | None => Raise (KeyError k)
  end.

(** Truth value of [d.get(k)] where the values of [d] are objects of a
    class with neither [__bool__] nor [__len__] (a [Transition]), or
    dictionaries that are never empty (an [Entry]): false exactly on
    [None]. *)
Definition truthy {A} (o : option A) : bool :=
  match o with
  | Some _ => true
  | None => false
  end.

(** [return self._state_transition_map.get(state_name) is not None] *)
Definition _is_valid_state (m : gmap string Entry) (state_name : string) : bool :=
  match m !! state_name with
  | Some _ => true
  | None => false
  end.

(** [_initialize_fsm_data_struture]: [self._state_transition_map = {}] *)
Definition _initialize_fsm_data_struture : gmap string Entry := ∅.

(** [_validate_and_add_state]: a name already in the map raises;
    otherwise the state gets an entry with two empty dictionaries. *)
Definition _validate_and_add_state (s : State) (m : gmap string Entry)
    : result (gmap string Entry) :=
  if truthy (m !! State_name s) then Raise (FSMExc DuplicateState)
  else Ok (<[State_name s := mkEntry s ∅ ∅]> m).

(** [_validate_and_add_transition]: the four checks in the order of the
    code (source, destination, edge, name), then the two assignments. *)
Definition _validate_and_add_transition (t : Transition) (m : gmap string Entry)
    : result (gmap string Entry) :=
  if negb (_is_valid_state m (source_name t)) then
    Raise (FSMExc (InvalidSource (source_name t) (Transition_name t)))
  else if negb (_is_valid_state m (destination_name t)) then
    Raise (FSMExc (InvalidDestination (destination_name t) (Transition_name t)))
  else
    e1 ← get_entry m (source_name t);
    if truthy (destination_states e1 !! destination_name t) then
      Raise (FSMExc (DuplicateEdge (source_name t) (destination_name t)))
    else
    e2 ← get_entry m (source_name t);
    if truthy (transitions e2 !! Transition_name t) then
      Raise (FSMExc (DuplicateTransitionName (Transition_name t) (source_name t)))
    else
    (* self._state_transition_map[source]['transitions'][name] = transition *)
    e3 ← getitem m (source_name t);
    let m1 := <[source_name t :=
                 mkEntry (state e3) (<[Transition_name t := t]> (transitions e3))
                         (destination_states e3)]> m in
    (* self._state_transition_map[source]['destination_states'][dest] = transition *)
    e4 ← getitem m1 (source_name t);
    Ok (<[source_name t :=
           mkEntry (state e4) (transitions e4)
                   (<[destination_name t := t]> (destination_states e4))]> m1).

(** [_validate_and_set_initial_state].  On a string,
    [not initial_state_name] is true exactly on the empty one; the lookup
    comes second. *)
Definition _validate_and_set_initial_state (initial_state_name : string)
    (m : gmap string Entry) : result FSM :=
  if bool_decide (initial_state_name = "") || negb (truthy (m !! initial_state_name))
  then Raise (FSMExc IncorrectInitialState)
  else Ok (mkFSM initial_state_name m).

(** [for x in l: f(x)] where [f] updates the map or raises. *)
Fixpoint for_each {A} (f : A → gmap string Entry → result (gmap string Entry))
    (l : list A) (m : gmap string Entry) : result (gmap string Entry) :=
  match l with
  | [] => Ok m
  | x :: l' => m' ← f x m; for_each f l' m'
  end.

(** [FSM.__init__]: the constructor returns the object only when no step
    raised. *)
Definition FSM_init (initial_state_name : string) (state_list : list State)
    (transition_list : list Transition) : result FSM :=
  m1 ← for_each _validate_and_add_state state_list _initialize_fsm_data_struture;
  m2 ← for_each _validate_and_add_transition transition_list m1;
  _validate_and_set_initial_state initial_state_name m2.

(** The [state] property. *)
Definition FSM_state (self : FSM) : string := _state self.

(** ** class FSM: executing a transition *)

(** A method runs on the engine object and on the world.  When it raises,
    what it did before stays done. *)
Definition M (A : Type) : Type := FSM → World → result A * FSM * World.

Definition ret {A} (a : A) : M A := λ self w, (Ok a, self, w).
Definition raise {A} (e : PyExn) : M A := λ self w, (Raise e, self, w).
Definition bind {A B} (c : M A) (k : A → M B) : M B := λ self w,
  match c self w with
  | (Ok a, self', w') => k a self' w'
  | (Raise e, self', w') => (Raise e, self', w')
  end.
Global Instance M_ret : MRet M := @ret.
Global Instance M_bind : MBind M := λ A B k c, bind c k.

(** An expression that reads the engine object and can raise. *)
Definition eval {A} (f : FSM → result A) : M A := λ self w, (f self, self, w).

(** Calling a hook. *)
Definition call (h : string → World → result unit * World) : M unit :=
  λ self w, let '(r, w') := h (FSM_state self) w in (r, self, w').

(** [self._state = name] *)
Definition set_state (name : string) : M unit :=
  λ self w, (Ok (), mkFSM name (_state_transition_map self), w).

(** Reading the [state] property, as the call it is. *)
Definition get_state : M string := eval (λ self, Ok (FSM_state self)).

(** A call [f(a, ..., **kwargs)] of a function [def f(p, ..., **kwargs)]
    raises [TypeError] when a key of the dictionary is the name of one of
    the parameters that the call has already filled. *)
Definition bind_arguments (params : list string) (kw : kwargs) : M unit :=
  if existsb (λ p, truthy (kw !! p)) params then raise TypeError else ret ().

(** The parameters of
    [def _execute(self, source_state, destination_state, transition, **kwargs)]. *)
Definition _execute_parameters : list string :=
  ["self"; "source_state"; "destination_state"; "transition"].

(** [_execute].  The [logging.debug] line goes to the logging module and
    not to the world of the hooks; it is left out. *)
Definition _execute (source_state destination_state : State)
    (transition : Transition) (kw : kwargs) : M unit :=
  bind_arguments _execute_parameters kw;;
  call (State_exit_state source_state kw);;
  call (Transition_execute transition kw);;
  call (State_enter_state destination_state kw);;
  set_state (State_name destination_state).

(** [self._state_transition_map.get(name).get('state')] *)
Definition state_of (name : string) (self : FSM) : result State :=
  e ← get_entry (_state_transition_map self) name; Ok (state e).

(** The parameters of [def execute_transition(self, transition_name, **kwargs)]
    and of [def execute_transition_to(self, destination_name, **kwargs)]. *)
Definition execute_transition_parameters : list string :=
  ["self"; "transition_name"].
Definition execute_transition_to_parameters : list string :=
  ["self"; "destination_name"].

(** [execute_transition]: the payload is bound at the call, so a key named
    like a parameter raises [TypeError] before the body runs; then the
    transition is looked up by name under the current state; the two
    states passed to [_execute] are looked up before the call. *)
Definition execute_transition (transition_name : string) (kw : kwargs) : M unit :=
  bind_arguments execute_transition_parameters kw;;
  transition ← eval (λ self,
    e ← get_entry (_state_transition_map self) (FSM_state self);
    Ok (transitions e !! transition_name));
  match transition with
  | None =>
      self ← eval Ok;
      raise (FSMExc (InvalidTransition transition_name (FSM_state self)))
  | Some transition =>
      source_state ← eval (λ self, state_of (FSM_state self) self);
      destination_state ← eval (state_of (destination_name transition));
      _execute source_state destination_state transition kw
  end.

(** [execute_transition_to]: the payload is bound at the call as in
    [execute_transition]; then the destination is checked, then the
    transition is looked up by destination under the current state. *)
Definition execute_transition_to (destination_name : string) (kw : kwargs)
    : M unit :=
  bind_arguments execute_transition_to_parameters kw;;
  valid ← eval (λ self, Ok (_is_valid_state (_state_transition_map self)
                                            destination_name));
  if negb valid then raise (FSMExc (InvalidState destination_name))
  else
  transition ← eval (λ self,
    e ← get_entry (_state_transition_map self) (FSM_state self);
    Ok (destination_states e !! destination_name));
  match transition with
  | None =>
      self ← eval Ok;
      raise (FSMExc (NoTransitionBetween (FSM_state self) destination_name))
  | Some transition =>
      source_state ← eval (λ self, state_of (FSM_state self) self);
      destination_state ← eval (state_of destination_name);
      _execute source_state destination_state transition kw
  end.

End Engine.

(** Outside the section the types name their parameters. *)
Arguments PyExn : clear implicits.
Arguments result : clear implicits.
Arguments kwargs : clear implicits.
Arguments callback : clear implicits.
Arguments State : clear implicits.
Arguments Transition : clear implicits.
Arguments Entry : clear implicits.
Arguments FSM : clear implicits.
Arguments M : clear implicits.

(** ** What the claims are stated with *)

Section Vocabulary.
Context {Value World UserExn : Type}.
Local Abbreviation State := (State Value World UserExn).
Local Abbreviation Transition := (Transition Value World UserExn).
Local Abbreviation FSM := (FSM Value World UserExn).
Local Abbreviation kwargs := (kwargs Value).

Definition names (state_list : list State) : list string :=
  State_name <$> state_list.

(** The ordered pair of states a transition joins, and the pair that
    names it among the transitions of its source. *)
Definition edge (t : Transition) : string * string :=
  (source_name t, destination_name t).
Definition label (t : Transition) : string * string :=
  (source_name t, Transition_name t).

(** Invariants 1 to 5 of the data model, on the arguments of the
    constructor. *)
Definition unique_state_names (state_list : list State) : Prop :=
  NoDup (names state_list).
Definition known_endpoints (state_list : list State)
    (transition_list : list Transition) : Prop :=
  Forall (λ t, source_name t ∈ names state_list
               ∧ destination_name t ∈ names state_list) transition_list.
Definition unique_edges (transition_list : list Transition) : Prop :=
  NoDup (edge <$> transition_list).
Definition unique_labels (transition_list : list Transition) : Prop :=
  NoDup (label <$> transition_list).
Definition valid_initial_state (initial_state_name : string)
    (state_list : list State) : Prop :=
  initial_state_name ≠ "" ∧ initial_state_name ∈ names state_list.

Definition valid_input (initial_state_name : string) (state_list : list State)
    (transition_list : list Transition) : Prop :=
  unique_state_names state_list
  ∧ known_endpoints state_list transition_list
  ∧ unique_edges transition_list
  ∧ unique_labels transition_list
  ∧ valid_initial_state initial_state_name state_list.

(** The invariant whose violation an error of the taxonomy reports.
    [UnknownTransitionError] is not raised by the constructor. *)
Definition invariant_of (k : ErrorKind) (initial_state_name : string)
    (state_list : list State) (transition_list : list Transition) : Prop :=
  match k with
  | DuplicateStateError => unique_state_names state_list
  | UnknownStateError => known_endpoints state_list transition_list
  | DuplicateEdgeError => unique_edges transition_list
  | DuplicateTransitionNameError => unique_labels transition_list
  | InvalidInitialStateError => valid_initial_state initial_state_name state_list
  | UnknownTransitionError => True
  end.

(** The map [m] holds the states of [m0] and, under each of them, the
    transitions of [done] that leave it, by name and by destination. *)
Record indexed (m0 : gmap string (Entry Value World UserExn))
    (done : list Transition) (m : gmap string (Entry Value World UserExn))
    : Prop := {
  indexed_states : ∀ k, state <$> m !! k = state <$> m0 !! k;
  indexed_transitions : ∀ k e n t, m !! k = Some e →
    transitions e !! n = Some t ↔ t ∈ done ∧ label t = (k, n);
  indexed_destination_states : ∀ k e d t, m !! k = Some e →
    destination_states e !! d = Some t ↔ t ∈ done ∧ edge t = (k, d);
}.

(** What the constructor leaves in the engine it returns: the entries are
    the states of [state_list], and each holds the transitions of
    [transition_list] that leave it, under their names and under their
    destinations. *)
Definition built (state_list : list State) (transition_list : list Transition)
    (m : gmap string (Entry Value World UserExn)) : Prop :=
  (∀ k, is_Some (m !! k) ↔ k ∈ names state_list)
  ∧ (∀ s, s ∈ state_list → state <$> m !! State_name s = Some s)
  ∧ (∀ k e n t, m !! k = Some e →
       transitions e !! n = Some t ↔ t ∈ transition_list ∧ label t = (k, n))
  ∧ (∀ k e d t, m !! k = Some e →
       destination_states e !! d = Some t ↔ t ∈ transition_list ∧ edge t = (k, d)).

(** Both ends of every transition of the list are keys of [m0]. *)
Definition endpoints_in (m0 : gmap string (Entry Value World UserExn))
    (l : list Transition) : Prop :=
  Forall (λ t, is_Some (m0 !! source_name t)
               ∧ is_Some (m0 !! destination_name t)) l.

(** The engines a program can hold: what the constructor returned for
    [state_list] and [transition_list], and what either operation left
    behind, whether it returned or raised. *)
Inductive reachable (state_list : list State) (transition_list : list Transition)
    : FSM → Prop :=
| reach_init initial_state_name self :
    FSM_init initial_state_name state_list transition_list = Ok self →
    reachable state_list transition_list self
| reach_execute_transition self transition_name kw (w : World) r self' w' :
    reachable state_list transition_list self →
    execute_transition transition_name kw self w = (r, self', w') →
    reachable state_list transition_list self'
| reach_execute_transition_to self destination kw (w : World) r self' w' :
    reachable state_list transition_list self →
    execute_transition_to destination kw self w = (r, self', w') →
    reachable state_list transition_list self'.

(** The payload has no key among the parameters [params] of the function
    it is passed to, so that the call binds. *)
Definition accepted_by (params : list string) (kw : kwargs) : Prop :=
  existsb (λ p, truthy (kw !! p)) params = false.

(** The payload has no key that [_execute] takes as a parameter. *)
Definition binds (kw : kwargs) : Prop :=
  existsb (λ p, truthy (kw !! p)) _execute_parameters = false.

(** The three hooks of a transition run one after the other from world
    [w] to world [w'], each returning normally and each seeing the engine
    in the state [current]. *)
Definition hooks_in_order (source_state : State) (transition : Transition)
    (destination_state : State) (kw : kwargs) (current : string)
    (w w' : World) : Prop :=
  ∃ w1 w2,
    State_exit_state source_state kw current w = (Ok (), w1)
    ∧ Transition_execute transition kw current w1 = (Ok (), w2)
    ∧ State_enter_state destination_state kw current w2 = (Ok (), w').

(** What a run of the protocol leaves when a hook raises [x]: the world of
    the hook that raised, with the effects of the hooks before it. *)
Inductive hook_raises (source_state : State) (transition : Transition)
    (destination_state : State) (kw : kwargs) (current : string) (w : World)
    (x : PyExn UserExn) : World → Prop :=
| raises_in_exit w1 :
    State_exit_state source_state kw current w = (Raise x, w1) →
    hook_raises source_state transition destination_state kw current w x w1
| raises_in_transition w1 w2 :
    State_exit_state source_state kw current w = (Ok (), w1) →
    Transition_execute transition kw current w1 = (Raise x, w2) →
    hook_raises source_state transition destination_state kw current w x w2
| raises_in_entry w1 w2 w3 :
    State_exit_state source_state kw current w = (Ok (), w1) →
    Transition_execute transition kw current w1 = (Ok (), w2) →
    State_enter_state destination_state kw current w2 = (Raise x, w3) →
    hook_raises source_state transition destination_state kw current w x w3.

End Vocabulary.

(** ** class FSMBuilder *)

Section Builder.
Context {Value World UserExn : Type}.
Local Abbreviation State := (State Value World UserExn).
Local Abbreviation Transition := (Transition Value World UserExn).
Local Abbreviation FSM := (FSM Value World UserExn).
Local Abbreviation callback := (callback Value World UserExn).

(** [FSM(initial_state_name, state_list, transition_list)] where the first
    argument can be [None], which is what [build] passes when
    [set_initial_state] was never called: [__init__] runs its two loops
    and then [not initial_state_name] is true. *)
Definition FSM_new (initial_state_name : option string) (state_list : list State)
    (transition_list : list Transition) : result UserExn FSM :=
  match initial_state_name with
  | Some name => FSM_init name state_list transition_list
  | None =>
      m1 ← for_each _validate_and_add_state state_list
             _initialize_fsm_data_struture;
      m2 ← for_each _validate_and_add_transition transition_list m1;
      Raise (FSMExc IncorrectInitialState)
  end.

(** The builder object: the staged states and transitions, in the order
    of the calls, and the initial state name, [None] until it is set. *)
Record FSMBuilder : Type := mkFSMBuilder {
  _states : list State;
  _transitions : list Transition;
  _initial_state_name : option string;
}.

(** [FSMBuilder.__init__] *)
Definition FSMBuilder_init : FSMBuilder := mkFSMBuilder [] [] None.

(** [_generate_random_name]: ['{}_{}'.format(prefix, str(uuid.uuid4())[:8])].
    The eight characters drawn from [uuid4] are the argument [token]. *)
Definition _generate_random_name (prefix token : string) : string :=
  prefix +:+ "_" +:+ token.

(** The methods change the builder and return the object they made. *)
Definition add_named_state (name : string)
    (before_exit after_entry : option callback) (self : FSMBuilder)
    : State * FSMBuilder :=
  let state := mkState name before_exit after_entry in
  (state, mkFSMBuilder (_states self ++ [state]) (_transitions self)
                       (_initial_state_name self)).

Definition add_state (token : string)
    (before_exit after_entry : option callback) (self : FSMBuilder)
    : State * FSMBuilder :=
  let state_name := _generate_random_name "state" token in
  add_named_state state_name before_exit after_entry self.

Definition add_named_transition (transition_name source destination : string)
    (on_transition : option callback) (self : FSMBuilder)
    : Transition * FSMBuilder :=
  let transition :=
    mkTransition transition_name source destination on_transition in
  (transition, mkFSMBuilder (_states self) (_transitions self ++ [transition])
                            (_initial_state_name self)).

Definition add_transition (token : string) (source destination : string)
    (on_transition : option callback) (self : FSMBuilder)
    : Transition * FSMBuilder :=
  let transition_name := _generate_random_name "transition" token in
  add_named_transition transition_name source destination on_transition self.

Definition set_initial_state (state_name : string) (self : FSMBuilder)
    : FSMBuilder :=
  mkFSMBuilder (_states self) (_transitions self) (Some state_name).

(** [return FSM(self._initial_state_name, self._states, self._transitions)] *)
Definition build (self : FSMBuilder) : result UserExn FSM :=
  FSM_new (_initial_state_name self) (_states self) (_transitions self).

End Builder.

Arguments FSMBuilder : clear implicits.

(** ** Machines used as examples *)

(** What a hook that records its call appends to the world: which hook it
    was, and the [state] property it read. *)
Inductive Event : Type :=
| Exited (name observed : string)
| Ran (name observed : string)
| Entered (name observed : string).

Definition recorder (event : string → Event)
    : callback nat (list Event) string :=
  λ kw observed w, (Ok (), w ++ [event observed]).

Definition failing (x : string) : callback nat (list Event) string :=
  λ kw observed w, (Raise (HookExc x), w).

Definition recording_state (name : string) : State nat (list Event) string :=
  mkState name (Some (recorder (Exited name))) (Some (recorder (Entered name))).

Definition recording_transition (name source destination : string)
    : Transition nat (list Event) string :=
  mkTransition name source destination (Some (recorder (Ran name))).

(** The machine of the scenario of section 8: A -> A, A -> B, B -> C,
    C -> A, started in A. *)
Definition demo_states : list (State nat (list Event) string) :=
  [recording_state "A"; recording_state "B"; recording_state "C"].

Definition demo_transitions : list (Transition nat (list Event) string) :=
  [recording_transition "t1" "A" "A"; recording_transition "t2" "A" "B";
   recording_transition "t3" "B" "C"; recording_transition "t4" "C" "A"].

Definition engine_of (r : result string (FSM nat (list Event) string))
    : FSM nat (list Event) string :=
  match r with
  | Ok self => self
  | Raise _ => mkFSM "" ∅
  end.

Definition demo : FSM nat (list Event) string :=
  engine_of (FSM_init "A" demo_states demo_transitions).

(** A machine with a transition whose hook raises, and with a state whose
    entry hook raises. *)
Definition faulty_states : list (State nat (list Event) string) :=
  [recording_state "A"; recording_state "B";
   mkState "C" (Some (recorder (Exited "C"))) (Some (failing "entry"))].

Definition faulty_transitions : list (Transition nat (list Event) string) :=
  [mkTransition "t" "A" "B" (Some (failing "hook"));
   recording_transition "u" "A" "C"].

Definition faulty : FSM nat (list Event) string :=
  engine_of (FSM_init "A" faulty_states faulty_transitions).

(** A machine with a state whose name is the empty string. *)
Definition unnamed_states : list (State nat (list Event) string) :=
  [recording_state ""; recording_state "A"].

Definition unnamed_transitions : list (Transition nat (list Event) string) :=
  [recording_transition "out" "" "A"; recording_transition "in" "A" "";
   recording_transition "loop" "" ""].

(** A machine without hooks. *)
Definition plain_states : list (State nat (list Event) string) :=
  [mkState "on" None None; mkState "off" None None].

Definition plain_transitions : list (Transition nat (list Event) string) :=
  [mkTransition "switch_off" "on" "off" None;
   mkTransition "switch_on" "off" "on" None].

Definition plain : FSM nat (list Event) string :=
  engine_of (FSM_init "on" plain_states plain_transitions).

(** A builder with two named states and one transition staged, and no
    initial state. *)
Definition staged : FSMBuilder nat (list Event) string :=
  (add_named_transition "go" "A" "B" None
     (add_named_state "B" None None
        (add_named_state "A" None None FSMBuilder_init).2).2).2.

(** Closes a decidable goal on concrete data by evaluating its decision
    procedure. *)
Ltac by_evaluation := apply (bool_decide_unpack _); vm_compute; exact I.

(** Membership in a list that is written out, one case per element. *)
Ltac by_cases_on H :=
  rewrite ?elem_of_cons, elem_of_nil in H;
  repeat (destruct H as [->|H]); [..|destruct H].

(** ** Construction *)

Section Construction.
Context {Value World UserExn : Type}.
Local Abbreviation State := (State Value World UserExn).
Local Abbreviation Transition := (Transition Value World UserExn).
Local Abbreviation Entry := (Entry Value World UserExn).
Local Abbreviation FSM := (FSM Value World UserExn).
Local Abbreviation result := (result UserExn).
Implicit Types (m : gmap string Entry) (s : State) (t : Transition).

Lemma truthy_true {A} (o : option A) : truthy o = true ↔ is_Some o.
Proof.
  destruct o; simpl; split; intros H; eauto; try discriminate.
  by apply is_Some_None in H.
Qed.

Lemma truthy_false {A} (o : option A) : truthy o = false ↔ o = None.
Proof. destruct o; simpl; split; congruence. Qed.

(** *** Registering the states *)

Lemma _validate_and_add_state_fresh s m :
  m !! State_name s = None →
  _validate_and_add_state s m = Ok (<[State_name s := mkEntry s ∅ ∅]> m).
Proof. intros H. unfold _validate_and_add_state. by rewrite H. Qed.

Lemma _validate_and_add_state_taken s m :
  is_Some (m !! State_name s) →
  _validate_and_add_state s m = Raise (FSMExc DuplicateState).
Proof. intros [e H]. unfold _validate_and_add_state. by rewrite H. Qed.

(** The loop over the states returns exactly when the names are pairwise
    different and new to the map; it then holds one fresh entry per state
    and leaves the other keys alone. *)
Lemma add_states_spec (l : list State) : ∀ m,
  match for_each _validate_and_add_state l m with
  | Ok m' =>
      NoDup (names l)
      ∧ (∀ k, k ∈ names l → m !! k = None)
      ∧ (∀ s, s ∈ l → m' !! State_name s = Some (mkEntry s ∅ ∅))
      ∧ (∀ k, k ∉ names l → m' !! k = m !! k)
  | Raise x =>
      x = FSMExc DuplicateState
      ∧ ¬ (NoDup (names l) ∧ ∀ k, k ∈ names l → m !! k = None)
  end.
Proof.
  unfold names. induction l as [|s l IH]; intros m; simpl.
  - split_and!; [constructor | intros ? []%elem_of_nil.. | done].
  - destruct (m !! State_name s) as [e|] eqn:Hs.
    + rewrite _validate_and_add_state_taken by eauto. simpl.
      split; [done|]. intros [_ H].
      specialize (H (State_name s)). rewrite Hs in H.
      discriminate H. set_solver.
    + rewrite _validate_and_add_state_fresh by done. simpl.
      specialize (IH (<[State_name s:=mkEntry s ∅ ∅]> m)).
      destruct (for_each _ l _) as [m'|x].
      * destruct IH as (Hnd & Hfresh & Hin & Hout).
        assert (Hnotin : State_name s ∉ names l).
        { intros Hk. specialize (Hfresh _ Hk).
          by rewrite lookup_insert_eq in Hfresh. }
        split_and!.
        -- by constructor.
        -- intros k [->|Hk]%elem_of_cons; [done|].
           specialize (Hfresh _ Hk).
           rewrite lookup_insert in Hfresh. by case_decide.
        -- intros s' [->|Hs']%elem_of_cons; [|by apply Hin].
           rewrite Hout by done. by rewrite lookup_insert_eq.
        -- intros k [Hne Hk']%not_elem_of_cons.
           rewrite Hout by done. by rewrite lookup_insert_ne.
      * destruct IH as [-> IH]. split; [done|].
        intros [Hnd Hfresh]. apply IH. apply NoDup_cons in Hnd as [Hnotin Hnd].
        split; [done|]. intros k Hk.
        rewrite lookup_insert_ne; [apply Hfresh; by right|].
        intros <-. done.
Qed.


(** *** Registering the transitions *)

(** One call of [_validate_and_add_transition], with the four lookups of
    the entry of the source folded into one. *)
Lemma _validate_and_add_transition_eq t m :
  _validate_and_add_transition t m =
  match m !! source_name t with
  | None => Raise (FSMExc (InvalidSource (source_name t) (Transition_name t)))
  | Some e =>
      match m !! destination_name t with
      | None =>
          Raise (FSMExc (InvalidDestination (destination_name t) (Transition_name t)))
      | Some _ =>
          if truthy (destination_states e !! destination_name t) then
            Raise (FSMExc (DuplicateEdge (source_name t) (destination_name t)))
          else if truthy (transitions e !! Transition_name t) then
            Raise (FSMExc (DuplicateTransitionName (Transition_name t) (source_name t)))
          else
            Ok (<[source_name t :=
                   mkEntry (state e) (<[Transition_name t := t]> (transitions e))
                           (<[destination_name t := t]> (destination_states e))]> m)
      end
  end.
Proof.
  unfold _validate_and_add_transition, _is_valid_state, get_entry, getitem.
  destruct (m !! source_name t) as [e|] eqn:Hs; simpl; [|done].
  destruct (m !! destination_name t) as [e'|] eqn:Hd; simpl; [|done].
  destruct (truthy (destination_states e !! _)); [done|].
  destruct (truthy (transitions e !! _)); [done|].
  rewrite lookup_insert_eq. simpl. by rewrite insert_insert_eq.
Qed.

Lemma not_NoDup_fmap_middle {A B} (f : A → B) (l1 l2 : list A) x y :
  x ∈ l1 → f x = f y → ¬ NoDup (f <$> l1 ++ y :: l2).
Proof.
  intros Hx Hf Hnd. rewrite fmap_app, fmap_cons in Hnd.
  apply NoDup_app in Hnd as (_ & Hdisj & _).
  apply (Hdisj (f y)).
  - rewrite <- Hf. by apply list_elem_of_fmap_2.
  - left.
Qed.

Lemma NoDup_fmap_snoc {A B} (f : A → B) (l : list A) y :
  NoDup (f <$> l) → (∀ x, x ∈ l → f x ≠ f y) → NoDup (f <$> l ++ [y]).
Proof.
  intros Hnd Hne. rewrite fmap_app. apply NoDup_app. split_and!; [done| |].
  - intros b (x & -> & Hx)%list_elem_of_fmap [Hb|[]%elem_of_nil]%elem_of_cons.
    by apply (Hne x).
  - simpl. apply NoDup_singleton.
Qed.

Lemma indexed_step m0 done m t e :
  indexed m0 done m →
  m !! source_name t = Some e →
  destination_states e !! destination_name t = None →
  transitions e !! Transition_name t = None →
  indexed m0 (done ++ [t])
    (<[source_name t :=
        mkEntry (state e) (<[Transition_name t := t]> (transitions e))
                (<[destination_name t := t]> (destination_states e))]> m).
Proof.
  intros [Hst Htr Hde] Hs Hd Hn. split.
  - intros k. rewrite <- Hst, lookup_insert. case_decide; [subst k|done].
    by rewrite Hs.
  - intros k e' n t' He'. rewrite elem_of_app, list_elem_of_singleton.
    rewrite lookup_insert in He'. case_decide as Hk.
    + subst k. injection He' as <-. simpl.
      rewrite lookup_insert. case_decide as Hnn.
      * subst n. split.
        -- intros [= <-]. split; [by right|done].
        -- intros [[Hin| ->] Hl]; [|done].
           assert (transitions e !! Transition_name t = Some t') as Hc
             by (by apply (Htr _ _ _ _ Hs)).
           congruence.
      * rewrite (Htr _ _ n t' Hs). split.
        -- intros [Hin Hl]. split; [by left|done].
        -- intros [[Hin| ->] Hl]; [done|].
           unfold label in Hl. congruence.
    + rewrite (Htr _ _ n t' He'). split.
      * intros [Hin Hl]. split; [by left|done].
      * intros [[Hin| ->] Hl]; [done|]. unfold label in Hl. congruence.
  - intros k e' d t' He'. rewrite elem_of_app, list_elem_of_singleton.
    rewrite lookup_insert in He'. case_decide as Hk.
    + subst k. injection He' as <-. simpl.
      rewrite lookup_insert. case_decide as Hdd.
      * subst d. split.
        -- intros [= <-]. split; [by right|done].
        -- intros [[Hin| ->] Hl]; [|done].
           assert (destination_states e !! destination_name t = Some t') as Hc
             by (by apply (Hde _ _ _ _ Hs)).
           congruence.
      * rewrite (Hde _ _ d t' Hs). split.
        -- intros [Hin Hl]. split; [by left|done].
        -- intros [[Hin| ->] Hl]; [done|].
           unfold edge in Hl. congruence.
    + rewrite (Hde _ _ d t' He'). split.
      * intros [Hin Hl]. split; [by left|done].
      * intros [[Hin| ->] Hl]; [done|]. unfold edge in Hl. congruence.
Qed.


(** The loop over the transitions, started on a map that indexes the
    transitions [done] handled so far: it returns exactly when no check
    fails, and what it raises names a rule that the whole list breaks. *)
Lemma add_transitions_spec m0 (l : list Transition) : ∀ done m,
  indexed m0 done m →
  endpoints_in m0 done → unique_edges done → unique_labels done →
  match for_each _validate_and_add_transition l m with
  | Ok m' =>
      indexed m0 (done ++ l) m'
      ∧ endpoints_in m0 (done ++ l)
      ∧ unique_edges (done ++ l) ∧ unique_labels (done ++ l)
  | Raise x =>
      ∃ e, x = FSMExc e ∧
        match kind e with
        | UnknownStateError => ¬ endpoints_in m0 (done ++ l)
        | DuplicateEdgeError => ¬ unique_edges (done ++ l)
        | DuplicateTransitionNameError => ¬ unique_labels (done ++ l)
        | _ => False
        end
  end.
Proof.
  unfold endpoints_in, unique_edges, unique_labels.
  induction l as [|t l IH]; intros done m Hidx Hends Hedges Hlabels; simpl.
  { by rewrite app_nil_r. }
  rewrite _validate_and_add_transition_eq.
  pose proof (indexed_states _ _ _ Hidx (source_name t)) as Hsrc.
  pose proof (indexed_states _ _ _ Hidx (destination_name t)) as Hdst.
  destruct (m !! source_name t) as [e|] eqn:Hs; simpl.
  2: { eexists; split; [done|]. simpl. intros Hall.
       apply Forall_app in Hall as [_ [[[e He] _] _]%Forall_cons].
       rewrite He in Hsrc. discriminate Hsrc. }
  destruct (m !! destination_name t) as [e'|] eqn:Hd; simpl.
  2: { eexists; split; [done|]. simpl. intros Hall.
       apply Forall_app in Hall as [_ [[_ [e' He']] _]%Forall_cons].
       rewrite He' in Hdst. discriminate Hdst. }
  destruct (destination_states e !! destination_name t) as [t'|] eqn:Hde; simpl.
  { eexists; split; [done|]. simpl.
    apply (indexed_destination_states _ _ _ Hidx _ _ _ _ Hs) in Hde as [Hin He].
    by apply not_NoDup_fmap_middle with t'. }
  destruct (transitions e !! Transition_name t) as [t'|] eqn:Htr; simpl.
  { eexists; split; [done|]. simpl.
    apply (indexed_transitions _ _ _ Hidx _ _ _ _ Hs) in Htr as [Hin He].
    by apply not_NoDup_fmap_middle with t'. }
  rewrite (cons_middle t done l), (assoc_L (++)).
  apply IH.
  - by apply indexed_step.
  - apply Forall_app. split; [done|]. apply Forall_singleton.
    destruct (m0 !! source_name t); [|discriminate Hsrc].
    destruct (m0 !! destination_name t); [|discriminate Hdst]. eauto.
  - apply NoDup_fmap_snoc; [done|]. intros x Hx Heq.
    assert (destination_states e !! destination_name t = Some x) as Hc
      by (by apply (indexed_destination_states _ _ _ Hidx _ _ _ _ Hs)).
    congruence.
  - apply NoDup_fmap_snoc; [done|]. intros x Hx Heq.
    assert (transitions e !! Transition_name t = Some x) as Hc
      by (by apply (indexed_transitions _ _ _ Hidx _ _ _ _ Hs)).
    congruence.
Qed.

(** The map right after the loop over the states indexes no transition. *)
Lemma indexed_start (l : list State) m0 :
  for_each _validate_and_add_state l ∅ = Ok m0 → indexed m0 [] m0.
Proof.
  intros H. pose proof (add_states_spec l ∅) as Hspec. rewrite H in Hspec.
  destruct Hspec as (Hnd & _ & Hin & Hout).
  assert (∀ k e, m0 !! k = Some e → transitions e = ∅ ∧ destination_states e = ∅)
    as Hempty.
  { intros k e He. destruct (decide (k ∈ names l)) as [Hk|Hk].
    - apply list_elem_of_fmap in Hk as (s & -> & Hs).
      rewrite (Hin _ Hs) in He. by injection He as <-.
    - rewrite (Hout _ Hk), lookup_empty in He. discriminate He. }
  split; [done|..]; intros k e x t He; destruct (Hempty _ _ He) as [E1 E2];
    rewrite ?E1, ?E2, lookup_empty; (split; [done|]);
    by intros [[]%elem_of_nil _].
Qed.

(** *** The constructor *)

Lemma endpoints_in_known (l : list State) m0 (tl : list Transition) :
  (∀ k, is_Some (m0 !! k) ↔ k ∈ names l) →
  endpoints_in m0 tl ↔ known_endpoints l tl.
Proof.
  intros Hdom. unfold endpoints_in, known_endpoints.
  apply Forall_proper; [|done]. intros t. by rewrite !Hdom.
Qed.

(** The constructor returns exactly on the valid inputs, and what it
    raises otherwise names an invariant that the input breaks. *)
Lemma FSM_init_spec initial_state_name (state_list : list State)
    (transition_list : list Transition) :
  match FSM_init initial_state_name state_list transition_list with
  | Ok self =>
      valid_input initial_state_name state_list transition_list
      ∧ _state self = initial_state_name
      ∧ built state_list transition_list (_state_transition_map self)
  | Raise x =>
      ∃ e, x = FSMExc e
        ∧ ¬ invariant_of (kind e) initial_state_name state_list transition_list
  end.
Proof.
  unfold FSM_init, _initialize_fsm_data_struture.
  pose proof (add_states_spec state_list ∅) as Hstates.
  destruct (for_each _validate_and_add_state state_list ∅) as [m0|x] eqn:H0;
    simpl.
  2: { destruct Hstates as [-> Hnot]. eexists; split; [done|]. simpl.
       intros Hnd. apply Hnot. split; [done|]. intros k _. apply lookup_empty. }
  destruct Hstates as (Hnd & _ & Hin & Hout).
  assert (∀ k, is_Some (m0 !! k) ↔ k ∈ names state_list) as Hdom.
  { intros k. split.
    - intros Hk. destruct (decide (k ∈ names state_list)) as [|Hn]; [done|].
      rewrite (Hout _ Hn), lookup_empty in Hk. by apply is_Some_None in Hk.
    - intros (s & -> & Hs)%list_elem_of_fmap. rewrite (Hin _ Hs). eauto. }
  pose proof (add_transitions_spec m0 transition_list [] m0
                (indexed_start _ _ H0)) as Htrans.
  simpl in Htrans.
  specialize (Htrans (Forall_nil_2 _) (NoDup_nil_2) (NoDup_nil_2)).
  destruct (for_each _validate_and_add_transition transition_list m0)
    as [m|x] eqn:H1; simpl.
  2: { destruct Htrans as (e & -> & He). eexists; split; [done|].
       destruct (kind e); simpl; try done.
       by rewrite <- (endpoints_in_known _ m0). }
  destruct Htrans as ([Hst Htr Hde] & Hends & Hedges & Hlabels).
  assert (∀ k, is_Some (m !! k) ↔ k ∈ names state_list) as Hdom'.
  { intros k. rewrite <- Hdom, <- !fmap_is_Some with (f := state). by rewrite Hst. }
  unfold _validate_and_set_initial_state.
  destruct (bool_decide (initial_state_name = "")) eqn:Hempty; simpl.
  { apply bool_decide_eq_true in Hempty. eexists; split; [done|]. simpl.
    by intros [? _]. }
  apply bool_decide_eq_false in Hempty.
  destruct (m !! initial_state_name) as [e|] eqn:Hinit; simpl.
  2: { eexists; split; [done|]. simpl. intros [_ Hreg].
       apply Hdom' in Hreg. rewrite Hinit in Hreg. by apply is_Some_None in Hreg. }
  split; [|split; [done|]].
  - split; [done|]. split; [by apply (endpoints_in_known _ m0)|].
    split; [done|]. split; [done|]. split; [done|]. apply Hdom'. eauto.
  - unfold built; simpl. split; [exact Hdom'|].
    split; [|split; [exact Htr|exact Hde]].
    intros s Hs. by rewrite Hst, (Hin _ Hs).
Qed.


Lemma built_state_name (sl : list State) (tl : list Transition) m k e :
  built sl tl m → m !! k = Some e → State_name (state e) = k.
Proof.
  intros (Hdom & Hst & _) He.
  assert (k ∈ names sl) as (s & -> & Hs)%list_elem_of_fmap by (apply Hdom; eauto).
  specialize (Hst _ Hs). rewrite He in Hst. by injection Hst as ->.
Qed.

(** *** The claims about construction *)

(** C1. For every valid construction input (unique state names, every
    transition's source and destination registered, no two transitions
    between the same ordered pair of states, transition names unique per
    source, a non-empty and registered initial state name) the constructor
    returns an engine, and its [state] property is the initial state
    name. *)
Theorem construction_succeeds initial_state_name (state_list : list State)
    (transition_list : list Transition) :
  valid_input initial_state_name state_list transition_list →
  ∃ self, FSM_init initial_state_name state_list transition_list = Ok self
          ∧ FSM_state self = initial_state_name.
Proof.
  intros Hvalid.
  pose proof (FSM_init_spec initial_state_name state_list transition_list) as H.
  destruct (FSM_init _ _ _) as [self|x].
  - exists self. by destruct H as (_ & ? & _).
  - destruct H as (e & _ & Hnot). exfalso.
    destruct Hvalid as (? & ? & ? & ? & ?).
    by destruct (kind e); simpl in Hnot; apply Hnot.
Qed.

(** C2. For every construction input that breaks one of the invariants 1
    to 5, the constructor raises [FSMException] and returns no engine; the
    exception is one that stands for an invariant the input breaks:
    [DuplicateStateError] for a repeated state name, [UnknownStateError]
    for an unregistered source or destination, [DuplicateEdgeError] for a
    second transition between the same ordered pair,
    [DuplicateTransitionNameError] for a name repeated among the
    transitions of one source, [InvalidInitialStateError] for an empty or
    unregistered initial state name.  When one invariant only is broken,
    the exception is the one of that invariant. *)
Theorem construction_fails initial_state_name (state_list : list State)
    (transition_list : list Transition) :
  ¬ unique_state_names state_list
  ∨ ¬ known_endpoints state_list transition_list
  ∨ ¬ unique_edges transition_list
  ∨ ¬ unique_labels transition_list
  ∨ ¬ valid_initial_state initial_state_name state_list →
  ∃ e, FSM_init initial_state_name state_list transition_list = Raise (FSMExc e)
       ∧ ¬ invariant_of (kind e) initial_state_name state_list transition_list
       ∧ ∀ k, (∀ k', k' ≠ k →
                 invariant_of k' initial_state_name state_list transition_list) →
              kind e = k.
Proof.
  intros Hbroken.
  pose proof (FSM_init_spec initial_state_name state_list transition_list) as H.
  destruct (FSM_init _ _ _) as [self|x].
  - destruct H as ((? & ? & ? & ? & ?) & _). exfalso.
    by destruct Hbroken as [Hb|[Hb|[Hb|[Hb|Hb]]]]; apply Hb.
  - destruct H as (e & -> & Hnot). exists e. split; [done|]. split; [done|].
    intros k Hothers. destruct (decide (kind e = k)) as [|Hne]; [done|].
    destruct Hnot. by apply Hothers.
Qed.

(** C10. A state named by the empty string is registered like any other
    and serves as the source and as the destination of transitions; the
    constructor called with the empty string as the initial state name
    raises on every input, and on an input that is valid but for that
    name, with the empty-named state registered, what it raises is the
    exception of the initial state. *)
Theorem empty_state_name (state_list : list State)
    (transition_list : list Transition) :
  (∃ x, FSM_init "" state_list transition_list = Raise x)
  ∧ (unique_state_names state_list →
     known_endpoints state_list transition_list →
     unique_edges transition_list →
     unique_labels transition_list →
     "" ∈ names state_list →
     FSM_init "" state_list transition_list = Raise (FSMExc IncorrectInitialState)
     ∧ ∀ initial_state_name,
         valid_initial_state initial_state_name state_list →
         ∃ self e,
           FSM_init initial_state_name state_list transition_list = Ok self
           ∧ _state_transition_map self !! "" = Some e
           ∧ State_name (state e) = ""
           ∧ (∀ t, t ∈ transition_list → source_name t = "" →
                transitions e !! Transition_name t = Some t
                ∧ destination_states e !! destination_name t = Some t)
           ∧ (∀ t, t ∈ transition_list → destination_name t = "" →
                ∃ e', _state_transition_map self !! source_name t = Some e'
                      ∧ destination_states e' !! "" = Some t)).
Proof.
  pose proof (FSM_init_spec "" state_list transition_list) as H0.
  split.
  { destruct (FSM_init "" _ _) as [self|x]; [|eauto].
    by destruct H0 as ((_ & _ & _ & _ & ? & _) & _). }
  intros Hstates Hends Hedges Hlabels Hempty. split.
  { destruct (FSM_init "" _ _) as [self|x].
    { by destruct H0 as ((_ & _ & _ & _ & ? & _) & _). }
    destruct H0 as (e & -> & Hnot). destruct e; simpl in Hnot; done. }
  intros initial_state_name Hinit.
  pose proof (FSM_init_spec initial_state_name state_list transition_list) as H.
  destruct (FSM_init initial_state_name _ _) as [self|x].
  2: { destruct H as (e & _ & Hnot). by destruct (kind e); simpl in Hnot. }
  destruct H as (_ & _ & Hb).
  pose proof Hb as (Hdom & _ & Htr & Hde).
  destruct (proj2 (Hdom "") Hempty) as [e He].
  exists self, e. split; [done|]. split; [done|].
  split; [by apply (built_state_name _ _ _ _ _ Hb He)|]. split.
  - intros t Ht Hs. split.
    + apply (Htr _ _ _ _ He). split; [done|]. unfold label. by rewrite Hs.
    + apply (Hde _ _ _ _ He). split; [done|]. unfold edge. by rewrite Hs.
  - intros t Ht Hd.
    unfold known_endpoints in Hends. rewrite Forall_forall in Hends.
    destruct (Hends _ Ht) as [Hsrc _].
    destruct (proj2 (Hdom _) Hsrc) as [e' He'].
    exists e'. split; [done|]. apply (Hde _ _ _ _ He'). split; [done|].
    unfold edge. by rewrite Hd.
Qed.

End Construction.

(** ** Executing a transition *)

Section Execution.
Context {Value World UserExn : Type}.
Local Abbreviation State := (State Value World UserExn).
Local Abbreviation Transition := (Transition Value World UserExn).
Local Abbreviation Entry := (Entry Value World UserExn).
Local Abbreviation FSM := (FSM Value World UserExn).
Local Abbreviation kwargs := (kwargs Value).
Implicit Types (self : FSM) (kw : kwargs) (w : World) (t : Transition).

(** *** The protocol and the two lookups, written out *)

Lemma protocol_eq (source_state destination_state : State) t kw self w :
  _execute source_state destination_state t kw self w =
  if existsb (λ p, truthy (kw !! p)) _execute_parameters then
    (Raise TypeError, self, w)
  else
    match State_exit_state source_state kw (FSM_state self) w with
    | (Raise x, w1) => (Raise x, self, w1)
    | (Ok _, w1) =>
        match Transition_execute t kw (FSM_state self) w1 with
        | (Raise x, w2) => (Raise x, self, w2)
        | (Ok _, w2) =>
            match State_enter_state destination_state kw (FSM_state self) w2 with
            | (Raise x, w3) => (Raise x, self, w3)
            | (Ok _, w3) =>
                (Ok (), mkFSM (State_name destination_state)
                              (_state_transition_map self), w3)
            end
        end
    end.
Proof.
  unfold _execute, bind_arguments, mbind, M_bind, bind, call, set_state.
  destruct (existsb _ _); [done|]. unfold ret. simpl.
  destruct (State_exit_state _ _ _ _) as [[[]|x] w1]; [|done].
  destruct (Transition_execute _ _ _ _) as [[[]|x] w2]; [|done].
  by destruct (State_enter_state _ _ _ _) as [[[]|x] w3].
Qed.

Lemma execute_transition_eq transition_name kw self w :
  execute_transition transition_name kw self w =
  if existsb (λ p, truthy (kw !! p)) execute_transition_parameters then
    (Raise TypeError, self, w)
  else
  match _state_transition_map self !! FSM_state self with
  | None => (Raise AttributeError, self, w)
  | Some e =>
      match transitions e !! transition_name with
      | None =>
          (Raise (FSMExc (InvalidTransition transition_name (FSM_state self))),
           self, w)
      | Some t =>
          match _state_transition_map self !! destination_name t with
          | None => (Raise AttributeError, self, w)
          | Some ed => _execute (state e) (state ed) t kw self w
          end
      end
  end.
Proof.
  unfold execute_transition, bind_arguments, mbind, M_bind, result_bind, bind,
    eval, state_of, get_entry, raise.
  destruct (existsb _ execute_transition_parameters); [done|].
  unfold ret. simpl.
  destruct (_state_transition_map self !! FSM_state self) as [e|] eqn:He;
    simpl; [|done].
  destruct (transitions e !! transition_name) as [t|]; simpl; [|done].
  rewrite He. simpl.
  by destruct (_state_transition_map self !! destination_name t).
Qed.

Lemma execute_transition_to_eq destination kw self w :
  execute_transition_to destination kw self w =
  if existsb (λ p, truthy (kw !! p)) execute_transition_to_parameters then
    (Raise TypeError, self, w)
  else
  match _state_transition_map self !! destination with
  | None => (Raise (FSMExc (InvalidState destination)), self, w)
  | Some ed =>
      match _state_transition_map self !! FSM_state self with
      | None => (Raise AttributeError, self, w)
      | Some e =>
          match destination_states e !! destination with
          | None =>
              (Raise (FSMExc (NoTransitionBetween (FSM_state self) destination)),
               self, w)
          | Some t => _execute (state e) (state ed) t kw self w
          end
      end
  end.
Proof.
  unfold execute_transition_to, bind_arguments, mbind, M_bind, result_bind,
    bind, eval, state_of, get_entry, raise, _is_valid_state.
  destruct (existsb _ execute_transition_to_parameters); [done|].
  unfold ret. simpl.
  destruct (_state_transition_map self !! destination) as [ed|] eqn:Hd;
    simpl; [|done].
  destruct (_state_transition_map self !! FSM_state self) as [e|] eqn:He;
    simpl; [|done].
  destruct (destination_states e !! destination); simpl; [|done].
  rewrite He, Hd. done.
Qed.

(** A payload with a key named like a parameter of the operation does not
    get past the call. *)
Lemma execute_transition_rejected transition_name kw self w :
  ¬ accepted_by execute_transition_parameters kw →
  execute_transition transition_name kw self w = (Raise TypeError, self, w).
Proof.
  unfold accepted_by. intros H. rewrite execute_transition_eq.
  by destruct (existsb _ execute_transition_parameters).
Qed.

Lemma execute_transition_to_rejected destination kw self w :
  ¬ accepted_by execute_transition_to_parameters kw →
  execute_transition_to destination kw self w = (Raise TypeError, self, w).
Proof.
  unfold accepted_by. intros H. rewrite execute_transition_to_eq.
  by destruct (existsb _ execute_transition_to_parameters).
Qed.

(** *** What an operation leaves of the engine *)

Lemma protocol_frame (source_state destination_state : State) t kw self w r self' w' :
  _execute source_state destination_state t kw self w = (r, self', w') →
  _state_transition_map self' = _state_transition_map self
  ∧ (_state self' = _state self ∨ _state self' = State_name destination_state)
  ∧ (∀ x, r = Raise x → self' = self).
Proof.
  rewrite protocol_eq.
  destruct (existsb _ _).
  { intros [= <- <- <-]. split_and!; eauto. }
  destruct (State_exit_state _ _ _ _) as [[[]|x] w1].
  2: { intros [= <- <- <-]. split_and!; eauto. }
  destruct (Transition_execute _ _ _ _) as [[[]|x] w2].
  2: { intros [= <- <- <-]. split_and!; eauto. }
  destruct (State_enter_state _ _ _ _) as [[[]|x] w3].
  2: { intros [= <- <- <-]. split_and!; eauto. }
  intros [= <- <- <-]. split_and!; simpl; eauto. intros x [=].
Qed.

(** The map of a reachable engine is the one the constructor built, its
    current state is registered, and the input was valid. *)
Lemma reachable_inv (sl : list State) (tl : list Transition) self :
  reachable sl tl self →
  built sl tl (_state_transition_map self)
  ∧ is_Some (_state_transition_map self !! _state self)
  ∧ known_endpoints sl tl.
Proof.
  induction 1 as [init self Hinit
                 |self n kw w r self' w' _ (Hb & Hcur & Hk) Hrun
                 |self d kw w r self' w' _ (Hb & Hcur & Hk) Hrun].
  - pose proof (FSM_init_spec init sl tl) as Hspec. rewrite Hinit in Hspec.
    destruct Hspec as ((_ & Hk & _ & _ & _ & Hreg) & <- & Hb).
    split; [done|]. split; [|done]. by apply Hb.
  - rewrite execute_transition_eq in Hrun.
    destruct (existsb _ execute_transition_parameters).
    { injection Hrun as <- <- <-. eauto. }
    destruct Hcur as [e He]. unfold FSM_state in Hrun. rewrite He in Hrun.
    destruct (transitions e !! n) as [t|].
    2: { injection Hrun as <- <- <-. eauto. }
    destruct (_state_transition_map self !! destination_name t) as [ed|] eqn:Hed.
    2: { injection Hrun as <- <- <-. eauto. }
    apply protocol_frame in Hrun as (Hmap & Hstate & _).
    rewrite Hmap. split; [done|]. split; [|done].
    destruct Hstate as [->| ->]; [eauto|].
    rewrite (built_state_name _ _ _ _ _ Hb Hed). eauto.
  - rewrite execute_transition_to_eq in Hrun.
    destruct (existsb _ execute_transition_to_parameters).
    { injection Hrun as <- <- <-. eauto. }
    destruct (_state_transition_map self !! d) as [ed|] eqn:Hed.
    2: { injection Hrun as <- <- <-. eauto. }
    destruct Hcur as [e He]. unfold FSM_state in Hrun. rewrite He in Hrun.
    destruct (destination_states e !! d) as [t|].
    2: { injection Hrun as <- <- <-. eauto. }
    apply protocol_frame in Hrun as (Hmap & Hstate & _).
    rewrite Hmap. split; [done|]. split; [|done].
    destruct Hstate as [->| ->]; [eauto|].
    rewrite (built_state_name _ _ _ _ _ Hb Hed). eauto.
Qed.

(** In a reachable engine the two lookups of [execute_transition] and of
    [execute_transition_to] find what the constructor was given. *)
Lemma reachable_current (sl : list State) (tl : list Transition) self :
  reachable sl tl self →
  ∃ e, _state_transition_map self !! FSM_state self = Some e
       ∧ State_name (state e) = FSM_state self
       ∧ (∀ n t, transitions e !! n = Some t ↔
            t ∈ tl ∧ source_name t = FSM_state self ∧ Transition_name t = n)
       ∧ (∀ d t, destination_states e !! d = Some t ↔
            t ∈ tl ∧ source_name t = FSM_state self ∧ destination_name t = d).
Proof.
  intros (Hb & [e He] & _)%reachable_inv. exists e. split; [done|].
  split; [by apply (built_state_name _ _ _ _ _ Hb He)|].
  destruct Hb as (_ & _ & Htr & Hde). unfold FSM_state.
  split; intros x t; [rewrite (Htr _ _ x t He) | rewrite (Hde _ _ x t He)];
    unfold label, edge; split.
  - by intros [? [= ? ?]].
  - by intros (? & -> & ->).
  - by intros [? [= ? ?]].
  - by intros (? & -> & ->).
Qed.

Lemma reachable_registered (sl : list State) (tl : list Transition) self k :
  reachable sl tl self →
  k ∈ names sl →
  ∃ e, _state_transition_map self !! k = Some e ∧ State_name (state e) = k.
Proof.
  intros (Hb & _ & _)%reachable_inv Hk.
  destruct (proj1 Hb k) as [_ [e He]]; [done|]. exists e. split; [done|].
  by apply (built_state_name _ _ _ _ _ Hb He).
Qed.

Lemma reachable_destination (sl : list State) (tl : list Transition) self t :
  reachable sl tl self → t ∈ tl → destination_name t ∈ names sl.
Proof.
  intros (_ & _ & Hk)%reachable_inv Ht.
  unfold known_endpoints in Hk. rewrite Forall_forall in Hk.
  by destruct (Hk _ Ht).
Qed.

(** A run of the protocol returns exactly when the payload binds and the
    three hooks return one after the other; the state is then the name of
    the destination state. *)
Lemma protocol_returns (source_state destination_state : State) t kw self w
    self' w' :
  _execute source_state destination_state t kw self w = (Ok (), self', w') ↔
  binds kw
  ∧ hooks_in_order source_state t destination_state kw (FSM_state self) w w'
  ∧ self' = mkFSM (State_name destination_state) (_state_transition_map self).
Proof.
  rewrite protocol_eq. unfold binds, hooks_in_order.
  destruct (existsb _ _).
  { split; [done|]. by intros [? _]. }
  destruct (State_exit_state _ _ _ _) as [[[]|x] w1].
  2: { split; [done|]. by intros (_ & (? & ? & ? & _) & _). }
  destruct (Transition_execute _ _ _ _) as [[[]|x] w2] eqn:Hrun.
  2: { split; [done|]. intros (_ & (? & ? & [= <-] & Hr & _) & _). congruence. }
  destruct (State_enter_state _ _ _ _) as [[[]|x] w3] eqn:Henter.
  2: { split; [done|]. intros (_ & (? & ? & [= <-] & Hr & He) & _). congruence. }
  split.
  - intros [= <- <-]. split; [done|]. split; [|done]. by exists w1, w2.
  - intros (_ & (? & ? & [= <-] & Hr & He) & ->). congruence.
Qed.

(** A run of the protocol in which a hook raises ends with that
    exception, in the world the hook left, on the engine as it was. *)
Lemma protocol_raises (source_state destination_state : State) t kw self w x w1 :
  binds kw →
  hook_raises source_state t destination_state kw (FSM_state self) w x w1 →
  _execute source_state destination_state t kw self w = (Raise x, self, w1).
Proof.
  unfold binds. intros Hb Hr. rewrite protocol_eq, Hb.
  destruct Hr as [w1 H1|w1 w2 H1 H2|w1 w2 w3 H1 H2 H3].
  - by rewrite H1.
  - by rewrite H1, H2.
  - by rewrite H1, H2, H3.
Qed.

(** *** The claims about execution *)

(** C3. Whenever either operation returns, the hooks have run in this
    order, each once: the exit hook of the source state from the world of
    the call, the hook of the transition from the world the exit hook
    left, the entry hook of the destination state from the world the
    transition hook left; all three still read the old [state], which is
    set to the destination only after them.  The operation returns exactly
    in that case, for a payload that binds at the call of the operation
    and at the call of [_execute]. *)
Theorem execution_order (state_list : list State)
    (transition_list : list Transition) self kw w self' w' :
  reachable state_list transition_list self →
  (∀ transition_name,
     execute_transition transition_name kw self w = (Ok (), self', w') ↔
     accepted_by execute_transition_parameters kw ∧
     ∃ e t ed,
       _state_transition_map self !! FSM_state self = Some e
       ∧ transitions e !! transition_name = Some t
       ∧ _state_transition_map self !! destination_name t = Some ed
       ∧ binds kw
       ∧ hooks_in_order (state e) t (state ed) kw (FSM_state self) w w'
       ∧ self' = mkFSM (destination_name t) (_state_transition_map self))
  ∧ (∀ destination,
     execute_transition_to destination kw self w = (Ok (), self', w') ↔
     accepted_by execute_transition_to_parameters kw ∧
     ∃ e t ed,
       _state_transition_map self !! FSM_state self = Some e
       ∧ destination_states e !! destination = Some t
       ∧ _state_transition_map self !! destination = Some ed
       ∧ binds kw
       ∧ hooks_in_order (state e) t (state ed) kw (FSM_state self) w w'
       ∧ self' = mkFSM destination (_state_transition_map self)).
Proof.
  intros Hreach. pose proof (reachable_inv _ _ _ Hreach) as (Hb & _ & _).
  split.
  - intros n. rewrite execute_transition_eq. unfold accepted_by.
    destruct (existsb _ execute_transition_parameters).
    { split; [done|]. by intros [? _]. }
    split.
    + destruct (_ !! FSM_state self) as [e|] eqn:He; [|done].
      destruct (transitions e !! n) as [t|] eqn:Ht; [|done].
      destruct (_ !! destination_name t) as [ed|] eqn:Hed; [|done].
      intros (? & ? & ->)%protocol_returns. split; [done|]. exists e, t, ed.
      rewrite (built_state_name _ _ _ _ _ Hb Hed). by split_and!.
    + intros (_ & e & t & ed & -> & -> & Hed & ? & ? & ->). rewrite Hed.
      apply protocol_returns. rewrite (built_state_name _ _ _ _ _ Hb Hed).
      by split_and!.
  - intros d. rewrite execute_transition_to_eq. unfold accepted_by.
    destruct (existsb _ execute_transition_to_parameters).
    { split; [done|]. by intros [? _]. }
    split.
    + destruct (_ !! d) as [ed|] eqn:Hed; [|done].
      destruct (_ !! FSM_state self) as [e|] eqn:He; [|done].
      destruct (destination_states e !! d) as [t|] eqn:Ht; [|done].
      intros (? & ? & ->)%protocol_returns. split; [done|]. exists e, t, ed.
      rewrite (built_state_name _ _ _ _ _ Hb Hed). by split_and!.
    + intros (_ & e & t & ed & -> & -> & Hed & ? & ? & ->). rewrite Hed.
      apply protocol_returns. rewrite (built_state_name _ _ _ _ _ Hb Hed).
      by split_and!.
Qed.

(** C4. If the exit hook, the transition hook or the entry hook raises
    in a run of the protocol (the payload binds at the call of the
    operation and at the call of [_execute], so that the hooks are
    called), either operation ends there with that very exception; the
    world is the one the raising hook left, which holds what the hooks
    before it did, and the engine, its current state included, is as
    before the call. *)
Theorem hook_failure (state_list : list State)
    (transition_list : list Transition) self kw w e t :
  reachable state_list transition_list self →
  binds kw →
  _state_transition_map self !! FSM_state self = Some e →
  (∀ transition_name,
     accepted_by execute_transition_parameters kw →
     transitions e !! transition_name = Some t →
     ∃ ed, _state_transition_map self !! destination_name t = Some ed
       ∧ ∀ x w1,
           hook_raises (state e) t (state ed) kw (FSM_state self) w x w1 →
           execute_transition transition_name kw self w = (Raise x, self, w1))
  ∧ (∀ destination,
     accepted_by execute_transition_to_parameters kw →
     destination_states e !! destination = Some t →
     ∃ ed, _state_transition_map self !! destination = Some ed
       ∧ ∀ x w1,
           hook_raises (state e) t (state ed) kw (FSM_state self) w x w1 →
           execute_transition_to destination kw self w = (Raise x, self, w1)).
Proof.
  intros Hreach Hbinds He.
  destruct (reachable_current _ _ _ Hreach) as (e' & He' & _ & Htr & Hde).
  rewrite He in He'. injection He' as <-.
  split.
  - intros n Hentry Ht. pose proof (proj1 (Htr _ _) Ht) as (Hin & _ & _).
    destruct (reachable_registered _ _ _ (destination_name t) Hreach)
      as (ed & Hed & _); [by eapply reachable_destination|].
    exists ed. split; [done|]. intros x w1 Hraises.
    rewrite execute_transition_eq, Hentry, He, Ht, Hed.
    by apply protocol_raises.
  - intros d Hentry Ht. pose proof (proj1 (Hde _ _) Ht) as (Hin & _ & <-).
    destruct (reachable_registered _ _ _ (destination_name t) Hreach)
      as (ed & Hed & _); [by eapply reachable_destination|].
    exists ed. split; [done|]. intros x w1 Hraises.
    rewrite execute_transition_to_eq, Hentry, He, Ht, Hed.
    by apply protocol_raises.
Qed.

(** C5, as amended.  With a payload that has neither the key [self] nor
    the key [destination_name], [execute_transition_to] raises the
    exception of an unknown state when the destination is not a
    registered state, and the exception of an unknown transition when it
    is registered but no transition leads to it from the current state,
    whatever the other transitions are.  With such a key the call raises
    [TypeError] instead.  In all these cases the engine and the world are
    as before the call, so no hook has run. *)
Theorem execute_transition_to_fails (state_list : list State)
    (transition_list : list Transition) self destination kw w :
  reachable state_list transition_list self →
  (¬ accepted_by execute_transition_to_parameters kw →
   execute_transition_to destination kw self w = (Raise TypeError, self, w))
  ∧ (accepted_by execute_transition_to_parameters kw →
     (destination ∉ names state_list →
      execute_transition_to destination kw self w
        = (Raise (FSMExc (InvalidState destination)), self, w)
      ∧ kind (InvalidState destination) = UnknownStateError)
     ∧ (destination ∈ names state_list →
        (∀ t, t ∈ transition_list → source_name t = FSM_state self →
              destination_name t ≠ destination) →
        execute_transition_to destination kw self w
          = (Raise (FSMExc (NoTransitionBetween (FSM_state self) destination)),
             self, w)
        ∧ kind (NoTransitionBetween (FSM_state self) destination)
          = UnknownTransitionError)).
Proof.
  intros Hreach. pose proof (reachable_inv _ _ _ Hreach) as ((Hdom & _) & _ & _).
  destruct (reachable_current _ _ _ Hreach) as (e & He & _ & _ & Hde).
  split; [apply execute_transition_to_rejected|]. intros Hentry.
  rewrite execute_transition_to_eq, Hentry. split.
  - intros Hnot. split; [|done].
    destruct (_ !! destination) as [ed|] eqn:Hed; [|done].
    destruct Hnot. apply Hdom. eauto.
  - intros Hin Hnone. split; [|done].
    destruct (proj2 (Hdom _) Hin) as [ed ->]. rewrite He.
    destruct (destination_states e !! destination) as [t|] eqn:Ht; [|done].
    apply Hde in Ht as (? & ? & ?). by destruct (Hnone t).
Qed.

(** C6, as amended.  With a payload that has neither the key [self] nor
    the key [transition_name], [execute_transition] raises the exception
    of an unknown transition whenever no transition that leaves the
    current state has the given name, also when a transition of another
    state has it.  With such a key the call raises [TypeError] instead.
    In both cases the engine and the world are as before the call, so no
    hook has run. *)
Theorem execute_transition_fails (state_list : list State)
    (transition_list : list Transition) self transition_name kw w :
  reachable state_list transition_list self →
  (¬ accepted_by execute_transition_parameters kw →
   execute_transition transition_name kw self w = (Raise TypeError, self, w))
  ∧ (accepted_by execute_transition_parameters kw →
     (∀ t, t ∈ transition_list → source_name t = FSM_state self →
           Transition_name t ≠ transition_name) →
     execute_transition transition_name kw self w
       = (Raise (FSMExc (InvalidTransition transition_name (FSM_state self))),
          self, w)
     ∧ kind (InvalidTransition transition_name (FSM_state self))
       = UnknownTransitionError).
Proof.
  intros Hreach. split; [apply execute_transition_rejected|].
  intros Hentry Hnone. split; [|done].
  destruct (reachable_current _ _ _ Hreach) as (e & He & _ & Htr & _).
  rewrite execute_transition_eq, Hentry, He.
  destruct (transitions e !! transition_name) as [t|] eqn:Ht; [|done].
  apply Htr in Ht as (? & ? & ?). by destruct (Hnone t).
Qed.

(** C7. A transition from a state to itself is accepted by the
    constructor, and executing it, by name or by destination, returns
    exactly when the payload binds (at the call of the operation and at
    the call of [_execute]) and the exit hook of the state, the hook of
    the transition and the entry hook of the same state return one after
    the other, in this order and each once; the engine is then as before
    the call, in the same state. *)
Theorem self_transition (state_list : list State)
    (transition_list : list Transition) self t kw w :
  reachable state_list transition_list self →
  t ∈ transition_list →
  source_name t = FSM_state self →
  destination_name t = FSM_state self →
  ∃ e, _state_transition_map self !! FSM_state self = Some e
    ∧ State_name (state e) = FSM_state self
    ∧ ∀ self' w',
        (execute_transition (Transition_name t) kw self w = (Ok (), self', w')
         ↔ accepted_by execute_transition_parameters kw
           ∧ binds kw
           ∧ hooks_in_order (state e) t (state e) kw (FSM_state self) w w'
           ∧ self' = self)
        ∧ (execute_transition_to (FSM_state self) kw self w = (Ok (), self', w')
           ↔ accepted_by execute_transition_to_parameters kw
             ∧ binds kw
             ∧ hooks_in_order (state e) t (state e) kw (FSM_state self) w w'
             ∧ self' = self).
Proof.
  intros Hreach Hin Hsrc Hdst.
  destruct (reachable_current _ _ _ Hreach) as (e & He & Hname & Htr & Hde).
  exists e. split; [done|]. split; [done|]. intros self' w'.
  assert (mkFSM (State_name (state e)) (_state_transition_map self) = self) as Hself.
  { rewrite Hname. by destruct self. }
  split.
  - rewrite execute_transition_eq. unfold accepted_by.
    destruct (existsb _ execute_transition_parameters).
    { split; [done|]. by intros [? _]. }
    rewrite He, (proj2 (Htr _ t)) by done.
    rewrite Hdst, He, protocol_returns, Hself. split; [done|]. by intros [_ ?].
  - rewrite execute_transition_to_eq. unfold accepted_by.
    destruct (existsb _ execute_transition_to_parameters).
    { split; [done|]. by intros [? _]. }
    rewrite He, (proj2 (Hde _ t)) by done.
    rewrite protocol_returns, Hself. split; [done|]. by intros [_ ?].
Qed.

(** C8. Whatever an operation does, returning or raising, it leaves the
    lookup structure, with the states and transitions it holds, as it
    was: only the current state name can differ.  Reading the [state]
    property changes nothing at all. *)
Theorem operations_frame self kw w r self' w' :
  (∀ transition_name,
     execute_transition transition_name kw self w = (r, self', w') →
     _state_transition_map self' = _state_transition_map self)
  ∧ (∀ destination,
     execute_transition_to destination kw self w = (r, self', w') →
     _state_transition_map self' = _state_transition_map self)
  ∧ get_state self w = (Ok (FSM_state self), self, w).
Proof.
  split; [|split; [|done]].
  - intros n. rewrite execute_transition_eq.
    destruct (existsb _ execute_transition_parameters);
      [by intros [= _ <- _]|].
    destruct (_ !! FSM_state self) as [e|]; [|by intros [= _ <- _]].
    destruct (transitions e !! n) as [t|]; [|by intros [= _ <- _]].
    destruct (_ !! destination_name t) as [ed|]; [|by intros [= _ <- _]].
    by intros (? & _)%protocol_frame.
  - intros d. rewrite execute_transition_to_eq.
    destruct (existsb _ execute_transition_to_parameters);
      [by intros [= _ <- _]|].
    destruct (_ !! d) as [ed|]; [|by intros [= _ <- _]].
    destruct (_ !! FSM_state self) as [e|]; [|by intros [= _ <- _]].
    destruct (destination_states e !! d) as [t|]; [|by intros [= _ <- _]].
    by intros (? & _)%protocol_frame.
Qed.

(** C9. In every engine the constructor returned, and after any number
    of operations on it: every transition given to the constructor is
    held under its source state, both under its name and under its
    destination; under every state the map by name and the map by
    destination hold the same transitions; and a transition held under a
    state is one of the given transitions and has that state as its
    source. *)
Theorem dual_index_consistency (state_list : list State)
    (transition_list : list Transition) self :
  reachable state_list transition_list self →
  (∀ t, t ∈ transition_list →
     ∃ e, _state_transition_map self !! source_name t = Some e
       ∧ transitions e !! Transition_name t = Some t
       ∧ destination_states e !! destination_name t = Some t)
  ∧ (∀ k e t, _state_transition_map self !! k = Some e →
       ((∃ n, transitions e !! n = Some t)
        ↔ (∃ d, destination_states e !! d = Some t))
       ∧ ((∃ n, transitions e !! n = Some t) →
          t ∈ transition_list ∧ source_name t = k)
       ∧ (∀ n, transitions e !! n = Some t → Transition_name t = n)
       ∧ (∀ d, destination_states e !! d = Some t → destination_name t = d)).
Proof.
  intros (Hb & _ & Hk)%reachable_inv.
  pose proof Hb as (Hdom & _ & Htr & Hde). split.
  - intros t Ht. unfold known_endpoints in Hk. rewrite Forall_forall in Hk.
    destruct (Hk _ Ht) as [Hsrc _]. destruct (proj2 (Hdom _) Hsrc) as [e He].
    exists e. split; [done|]. split.
    + by apply (Htr _ _ _ _ He).
    + by apply (Hde _ _ _ _ He).
  - intros k e t He. split_and!.
    + split.
      * intros [n (Hin & [= Hs _])%(Htr _ _ _ _ He)].
        exists (destination_name t). apply (Hde _ _ _ _ He).
        split; [done|]. unfold edge. by rewrite Hs.
      * intros [d (Hin & [= Hs _])%(Hde _ _ _ _ He)].
        exists (Transition_name t). apply (Htr _ _ _ _ He).
        split; [done|]. unfold label. by rewrite Hs.
    + by intros [n (Hin & [= Hs _])%(Htr _ _ _ _ He)].
    + by intros n (Hin & [= _ Hn])%(Htr _ _ _ _ He).
    + by intros d (Hin & [= _ Hd])%(Hde _ _ _ _ He).
Qed.

End Execution.

(** ** The example machines under the theorems *)

Lemma demo_built : FSM_init "A" demo_states demo_transitions = Ok demo.
Proof. vm_compute. reflexivity. Qed.

Lemma demo_reachable : reachable demo_states demo_transitions demo.
Proof. exact (reach_init _ _ "A" demo demo_built). Qed.

Lemma construction_succeeds_witness :
  valid_input "A" demo_states demo_transitions
  ∧ ∃ self, FSM_init "A" demo_states demo_transitions = Ok self
            ∧ FSM_state self = "A".
Proof.
  assert (valid_input "A" demo_states demo_transitions) as Hvalid.
  { unfold valid_input, unique_state_names, known_endpoints, unique_edges,
      unique_labels, valid_initial_state.
    split_and!; by_evaluation. }
  split; [exact Hvalid|]. exact (construction_succeeds _ _ _ Hvalid).
Defined.

Lemma construction_fails_witness :
  (¬ unique_state_names demo_states
   ∨ ¬ known_endpoints demo_states
         (demo_transitions ++ [recording_transition "x" "A" "B"])
   ∨ ¬ unique_edges (demo_transitions ++ [recording_transition "x" "A" "B"])
   ∨ ¬ unique_labels (demo_transitions ++ [recording_transition "x" "A" "B"])
   ∨ ¬ valid_initial_state "A" demo_states)
  ∧ ∃ e, FSM_init "A" demo_states
           (demo_transitions ++ [recording_transition "x" "A" "B"])
         = Raise (FSMExc e)
       ∧ ¬ invariant_of (kind e) "A" demo_states
             (demo_transitions ++ [recording_transition "x" "A" "B"])
       ∧ ∀ k, (∀ k', k' ≠ k →
                 invariant_of k' "A" demo_states
                   (demo_transitions ++ [recording_transition "x" "A" "B"])) →
              kind e = k.
Proof.
  assert (¬ unique_edges (demo_transitions ++ [recording_transition "x" "A" "B"]))
    as Hdup by (unfold unique_edges; by_evaluation).
  split; [by right; right; left|].
  apply construction_fails. by right; right; left.
Defined.

Lemma execution_order_witness :
  reachable demo_states demo_transitions demo
  ∧ accepted_by execute_transition_to_parameters (∅ : kwargs nat)
  ∧ ∃ e t ed,
      _state_transition_map demo !! FSM_state demo = Some e
      ∧ destination_states e !! "B" = Some t
      ∧ _state_transition_map demo !! "B" = Some ed
      ∧ binds (∅ : kwargs nat)
      ∧ hooks_in_order (state e) t (state ed) ∅ (FSM_state demo) []
          [Exited "A" "A"; Ran "t2" "A"; Entered "B" "A"]
      ∧ mkFSM "B" (_state_transition_map demo)
        = mkFSM "B" (_state_transition_map demo).
Proof.
  split; [exact demo_reachable|].
  apply (proj2 (execution_order demo_states demo_transitions demo ∅ []
                  (mkFSM "B" (_state_transition_map demo))
                  [Exited "A" "A"; Ran "t2" "A"; Entered "B" "A"]
                  demo_reachable) "B").
  vm_compute. reflexivity.
Defined.

Lemma faulty_built : FSM_init "A" faulty_states faulty_transitions = Ok faulty.
Proof. vm_compute. reflexivity. Qed.

Lemma hook_failure_witness :
  ∃ e t,
    reachable faulty_states faulty_transitions faulty
    ∧ binds (∅ : kwargs nat)
    ∧ accepted_by execute_transition_parameters (∅ : kwargs nat)
    ∧ _state_transition_map faulty !! FSM_state faulty = Some e
    ∧ transitions e !! "t" = Some t
    ∧ execute_transition "t" ∅ faulty []
      = (Raise (HookExc "hook"), faulty, [Exited "A" "A"]).
Proof.
  eexists. eexists.
  assert (reachable faulty_states faulty_transitions faulty) as Hreach
    by exact (reach_init _ _ "A" faulty faulty_built).
  assert (binds (∅ : kwargs nat)) as Hbinds by reflexivity.
  assert (accepted_by execute_transition_parameters (∅ : kwargs nat)) as Hentry
    by reflexivity.
  split; [exact Hreach|]. split; [exact Hbinds|]. split; [exact Hentry|].
  assert (_state_transition_map faulty !! FSM_state faulty
          = Some (mkEntry (recording_state "A")
                    (<["u" := recording_transition "u" "A" "C"]>
                       {["t" := mkTransition "t" "A" "B" (Some (failing "hook"))]})
                    (<["C" := recording_transition "u" "A" "C"]>
                       {["B" := mkTransition "t" "A" "B" (Some (failing "hook"))]})))
    as He by (vm_compute; reflexivity).
  split; [exact He|].
  split; [vm_compute; reflexivity|].
  destruct (proj1 (hook_failure faulty_states faulty_transitions faulty ∅ []
                     _ (mkTransition "t" "A" "B" (Some (failing "hook")))
                     Hreach Hbinds He) "t" Hentry)
    as (ed & _ & Hraises); [vm_compute; reflexivity|].
  apply Hraises. apply raises_in_transition with [Exited "A" "A"];
    vm_compute; reflexivity.
Defined.

Lemma execute_transition_to_fails_witness :
  reachable demo_states demo_transitions demo
  ∧ accepted_by execute_transition_to_parameters (∅ : kwargs nat)
  ∧ ¬ accepted_by execute_transition_to_parameters
        ({["destination_name" := 1]} : kwargs nat)
  ∧ ("Z" ∉ names demo_states)
  ∧ ("C" ∈ names demo_states)
  ∧ (∀ t, t ∈ demo_transitions → source_name t = FSM_state demo →
          destination_name t ≠ "C")
  ∧ execute_transition_to "Z" ∅ demo []
    = (Raise (FSMExc (InvalidState "Z")), demo, [])
  ∧ execute_transition_to "C" ∅ demo []
    = (Raise (FSMExc (NoTransitionBetween (FSM_state demo) "C")), demo, [])
  ∧ execute_transition_to "Z" {["destination_name" := 1]} demo []
    = (Raise TypeError, demo, []).
Proof.
  assert (accepted_by execute_transition_to_parameters (∅ : kwargs nat))
    as Hentry by reflexivity.
  assert (¬ accepted_by execute_transition_to_parameters
              ({["destination_name" := 1]} : kwargs nat)) as Hclash
    by (vm_compute; discriminate).
  assert ("Z" ∉ names demo_states) as HZ by by_evaluation.
  assert ("C" ∈ names demo_states) as HC by by_evaluation.
  assert (∀ t, t ∈ demo_transitions → source_name t = FSM_state demo →
               destination_name t ≠ "C") as Hnone.
  { intros t Ht. unfold demo_transitions in Ht. by_cases_on Ht; by vm_compute. }
  split; [exact demo_reachable|]. split; [exact Hentry|].
  split; [exact Hclash|]. split; [exact HZ|]. split; [exact HC|].
  split; [exact Hnone|].
  split_and!.
  - exact (proj1 (proj1 (proj2 (execute_transition_to_fails demo_states
                                  demo_transitions demo "Z" ∅ [] demo_reachable)
                          Hentry) HZ)).
  - exact (proj1 (proj2 (proj2 (execute_transition_to_fails demo_states
                                  demo_transitions demo "C" ∅ [] demo_reachable)
                          Hentry) HC Hnone)).
  - exact (proj1 (execute_transition_to_fails demo_states demo_transitions
                    demo "Z" {["destination_name" := 1]} [] demo_reachable)
             Hclash).
Defined.

Lemma execute_transition_fails_witness :
  reachable demo_states demo_transitions demo
  ∧ accepted_by execute_transition_parameters (∅ : kwargs nat)
  ∧ ¬ accepted_by execute_transition_parameters
        ({["transition_name" := 1]} : kwargs nat)
  ∧ (∀ t, t ∈ demo_transitions → source_name t = FSM_state demo →
          Transition_name t ≠ "t4")
  ∧ execute_transition "t4" ∅ demo []
    = (Raise (FSMExc (InvalidTransition "t4" (FSM_state demo))), demo, [])
  ∧ execute_transition "t4" {["transition_name" := 1]} demo []
    = (Raise TypeError, demo, []).
Proof.
  assert (accepted_by execute_transition_parameters (∅ : kwargs nat))
    as Hentry by reflexivity.
  assert (¬ accepted_by execute_transition_parameters
              ({["transition_name" := 1]} : kwargs nat)) as Hclash
    by (vm_compute; discriminate).
  assert (∀ t, t ∈ demo_transitions → source_name t = FSM_state demo →
               Transition_name t ≠ "t4") as Hnone.
  { intros t Ht. unfold demo_transitions in Ht. by_cases_on Ht; by vm_compute. }
  split; [exact demo_reachable|]. split; [exact Hentry|].
  split; [exact Hclash|]. split; [exact Hnone|]. split.
  - exact (proj1 (proj2 (execute_transition_fails demo_states demo_transitions
                           demo "t4" ∅ [] demo_reachable) Hentry Hnone)).
  - exact (proj1 (execute_transition_fails demo_states demo_transitions demo
                    "t4" {["transition_name" := 1]} [] demo_reachable) Hclash).
Defined.

(** C5 as it was stated fails on the code: with the payload key
    [destination_name], or [self], the call itself raises [TypeError],
    for an unregistered destination and for a registered one that no
    transition reaches, and not the exception of an unknown state or of
    an unknown transition. *)
Lemma execute_transition_to_fails_counterexample :
  reachable demo_states demo_transitions demo
  ∧ ("Z" ∉ names demo_states)
  ∧ ("C" ∈ names demo_states)
  ∧ (∀ t, t ∈ demo_transitions → source_name t = FSM_state demo →
          destination_name t ≠ "C")
  ∧ execute_transition_to "Z" {["destination_name" := 1]} demo []
    ≠ (Raise (FSMExc (InvalidState "Z")), demo, [])
  ∧ execute_transition_to "C" {["self" := 1]} demo []
    ≠ (Raise (FSMExc (NoTransitionBetween (FSM_state demo) "C")), demo, [])
  ∧ ¬ (∀ kw : kwargs nat,
         ∃ e, execute_transition_to "Z" kw demo [] = (Raise (FSMExc e), demo, [])
              ∧ kind e = UnknownStateError).
Proof.
  split; [exact demo_reachable|].
  split; [by_evaluation|]. split; [by_evaluation|]. split.
  { intros t Ht. unfold demo_transitions in Ht. by_cases_on Ht; by vm_compute. }
  split; [vm_compute; discriminate|]. split; [vm_compute; discriminate|].
  intros H. destruct (H {["destination_name" := 1]}) as (e & He & _).
  vm_compute in He. discriminate He.
Qed.

(** C6 as it was stated fails on the code: with the payload key
    [transition_name], or [self], the call itself raises [TypeError] and
    not the exception of an unknown transition. *)
Lemma execute_transition_fails_counterexample :
  reachable demo_states demo_transitions demo
  ∧ (∀ t, t ∈ demo_transitions → source_name t = FSM_state demo →
          Transition_name t ≠ "t4")
  ∧ execute_transition "t4" {["transition_name" := 1]} demo []
    ≠ (Raise (FSMExc (InvalidTransition "t4" (FSM_state demo))), demo, [])
  ∧ execute_transition "t4" {["self" := 1]} demo []
    ≠ (Raise (FSMExc (InvalidTransition "t4" (FSM_state demo))), demo, [])
  ∧ ¬ (∀ kw : kwargs nat,
         ∃ e, execute_transition "t4" kw demo [] = (Raise (FSMExc e), demo, [])
              ∧ kind e = UnknownTransitionError).
Proof.
  split; [exact demo_reachable|]. split.
  { intros t Ht. unfold demo_transitions in Ht. by_cases_on Ht; by vm_compute. }
  split; [vm_compute; discriminate|]. split; [vm_compute; discriminate|].
  intros H. destruct (H {["transition_name" := 1]}) as (e & He & _).
  vm_compute in He. discriminate He.
Qed.

Lemma self_transition_witness :
  reachable demo_states demo_transitions demo
  ∧ recording_transition "t1" "A" "A" ∈ demo_transitions
  ∧ source_name (recording_transition "t1" "A" "A") = FSM_state demo
  ∧ destination_name (recording_transition "t1" "A" "A") = FSM_state demo
  ∧ execute_transition "t1" ∅ demo []
    = (Ok (), demo, [Exited "A" "A"; Ran "t1" "A"; Entered "A" "A"])
  ∧ execute_transition_to "A" ∅ demo []
    = (Ok (), demo, [Exited "A" "A"; Ran "t1" "A"; Entered "A" "A"]).
Proof.
  assert (recording_transition "t1" "A" "A" ∈ demo_transitions) as Hin by left.
  split; [exact demo_reachable|]. split; [exact Hin|].
  split; [reflexivity|]. split; [reflexivity|].
  destruct (self_transition demo_states demo_transitions demo
              (recording_transition "t1" "A" "A") ∅ []
              demo_reachable Hin eq_refl eq_refl)
    as (e & He & _ & Hruns).
  assert (e = mkEntry (recording_state "A")
                (<["t2" := recording_transition "t2" "A" "B"]>
                   {["t1" := recording_transition "t1" "A" "A"]})
                (<["B" := recording_transition "t2" "A" "B"]>
                   {["A" := recording_transition "t1" "A" "A"]})) as ->.
  { vm_compute in He. by injection He as <-. }
  destruct (Hruns demo [Exited "A" "A"; Ran "t1" "A"; Entered "A" "A"])
    as [Hname Hto].
  assert (hooks_in_order (recording_state "A") (recording_transition "t1" "A" "A")
            (recording_state "A") (∅ : kwargs nat) (FSM_state demo) []
            [Exited "A" "A"; Ran "t1" "A"; Entered "A" "A"]) as Horder.
  { exists [Exited "A" "A"], [Exited "A" "A"; Ran "t1" "A"]. by split_and!. }
  split; [apply Hname | apply Hto]; by split_and!.
Defined.

Lemma dual_index_consistency_witness :
  reachable demo_states demo_transitions
    (mkFSM "B" (_state_transition_map demo))
  ∧ (∀ t, t ∈ demo_transitions →
       ∃ e, _state_transition_map demo !! source_name t = Some e
         ∧ transitions e !! Transition_name t = Some t
         ∧ destination_states e !! destination_name t = Some t).
Proof.
  assert (reachable demo_states demo_transitions
            (mkFSM "B" (_state_transition_map demo))) as Hreach.
  { apply (reach_execute_transition_to _ _ demo "B" ∅ [] (Ok ()) _
             [Exited "A" "A"; Ran "t2" "A"; Entered "B" "A"] demo_reachable).
    vm_compute. reflexivity. }
  split; [exact Hreach|].
  exact (proj1 (dual_index_consistency _ _ _ Hreach)).
Defined.

Lemma empty_state_name_witness :
  unique_state_names unnamed_states
  ∧ known_endpoints unnamed_states unnamed_transitions
  ∧ unique_edges unnamed_transitions
  ∧ unique_labels unnamed_transitions
  ∧ ("" ∈ names unnamed_states)
  ∧ valid_initial_state "A" unnamed_states
  ∧ FSM_init "" unnamed_states unnamed_transitions
    = Raise (FSMExc IncorrectInitialState)
  ∧ ∃ self e,
      FSM_init "A" unnamed_states unnamed_transitions = Ok self
      ∧ _state_transition_map self !! "" = Some e
      ∧ State_name (state e) = ""
      ∧ (∀ t, t ∈ unnamed_transitions → source_name t = "" →
           transitions e !! Transition_name t = Some t
           ∧ destination_states e !! destination_name t = Some t)
      ∧ (∀ t, t ∈ unnamed_transitions → destination_name t = "" →
           ∃ e', _state_transition_map self !! source_name t = Some e'
                 ∧ destination_states e' !! "" = Some t).
Proof.
  assert (unique_state_names unnamed_states) as H1
    by (unfold unique_state_names; by_evaluation).
  assert (known_endpoints unnamed_states unnamed_transitions) as H2
    by (unfold known_endpoints; by_evaluation).
  assert (unique_edges unnamed_transitions) as H3
    by (unfold unique_edges; by_evaluation).
  assert (unique_labels unnamed_transitions) as H4
    by (unfold unique_labels; by_evaluation).
  assert ("" ∈ names unnamed_states) as H5 by by_evaluation.
  assert (valid_initial_state "A" unnamed_states) as H6
    by (unfold valid_initial_state; split; by_evaluation).
  destruct (proj2 (empty_state_name unnamed_states unnamed_transitions)
              H1 H2 H3 H4 H5) as [Hfails Hworks].
  split_and!; try done. exact (Hworks "A" H6).
Defined.

(** The scenario of section 8 of the specification, run on [demo]: to A,
    to C (refused), to B, by name t4 (refused), by name t3. *)
Example scenario :
  (execute_transition_to "A" ∅;;
   execute_transition_to "B" ∅;;
   execute_transition "t3" ∅) demo []
  = (Ok (), mkFSM "C" (_state_transition_map demo),
     [Exited "A" "A"; Ran "t1" "A"; Entered "A" "A";
      Exited "A" "A"; Ran "t2" "A"; Entered "B" "A";
      Exited "B" "B"; Ran "t3" "B"; Entered "C" "B"])
  ∧ (execute_transition_to "A" ∅;; execute_transition_to "C" ∅) demo []
    = (Raise (FSMExc (NoTransitionBetween "A" "C")), demo,
       [Exited "A" "A"; Ran "t1" "A"; Entered "A" "A"])
  ∧ (execute_transition_to "B" ∅;; execute_transition "t4" ∅) demo []
    = (Raise (FSMExc (InvalidTransition "t4" "B")),
       mkFSM "B" (_state_transition_map demo),
       [Exited "A" "A"; Ran "t2" "A"; Entered "B" "A"]).
Proof. split_and!; vm_compute; reflexivity. Qed.

(** An entry hook that raises: the exit hook and the transition hook have
    run, and the engine is still in A. *)
Example entry_hook_raises :
  execute_transition "u" ∅ faulty []
  = (Raise (HookExc "entry"), faulty, [Exited "A" "A"; Ran "u" "A"]).
Proof. vm_compute. reflexivity. Qed.

(** A payload with the key [transition] does not reach the hooks. *)
Example payload_clash :
  execute_transition_to "B" {["transition" := 1]} demo []
  = (Raise TypeError, demo, []).
Proof. vm_compute. reflexivity. Qed.

(** Two transitions with the same name from different states are
    accepted; from the same state they are not, and two transitions
    between the same states are refused whatever their names. *)
Example duplicate_names_and_edges :
  (∃ self, FSM_init "A" demo_states
             [recording_transition "t" "A" "B"; recording_transition "t" "B" "A"]
           = Ok self)
  ∧ FSM_init "A" demo_states
      [recording_transition "t" "A" "B"; recording_transition "t" "A" "C"]
    = Raise (FSMExc (DuplicateTransitionName "t" "A"))
  ∧ FSM_init "A" demo_states
      [recording_transition "t" "A" "B"; recording_transition "u" "A" "B"]
    = Raise (FSMExc (DuplicateEdge "A" "B")).
Proof. split_and!; [eexists|..]; vm_compute; reflexivity. Qed.

(** ** More on construction *)

Section MoreConstruction.
Context {Value World UserExn : Type}.
Local Abbreviation State := (State Value World UserExn).
Local Abbreviation Transition := (Transition Value World UserExn).
Local Abbreviation Entry := (Entry Value World UserExn).
Local Abbreviation FSM := (FSM Value World UserExn).
Local Abbreviation PyExn := (PyExn UserExn).
Implicit Types (m : gmap string Entry) (s : State) (t : Transition).

Lemma for_each_app {A} (f : A → gmap string Entry → result UserExn (gmap string Entry))
    (l1 l2 : list A) m :
  for_each f (l1 ++ l2) m = for_each f l1 m ≫= for_each f l2.
Proof.
  revert m. induction l1 as [|x l1 IH]; intros m; simpl; [done|].
  destruct (f x m) as [m'|e]; simpl; [apply IH|done].
Qed.

(** The loop over the states on the empty map. *)
Lemma states_loop (state_list : list State) :
  match for_each _validate_and_add_state state_list ∅ with
  | Ok m0 =>
      unique_state_names state_list
      ∧ (∀ k, is_Some (m0 !! k) ↔ k ∈ names state_list)
      ∧ indexed m0 [] m0
  | Raise x => x = FSMExc DuplicateState ∧ ¬ unique_state_names state_list
  end.
Proof.
  pose proof (add_states_spec state_list ∅) as H.
  destruct (for_each _ state_list ∅) as [m0|x] eqn:H0.
  - destruct H as (Hnd & _ & Hin & Hout). split; [done|]. split.
    + intros k. split.
      * intros Hk. destruct (decide (k ∈ names state_list)) as [|Hn]; [done|].
        rewrite (Hout _ Hn), lookup_empty in Hk. by apply is_Some_None in Hk.
      * intros (s & -> & Hs)%list_elem_of_fmap. rewrite (Hin _ Hs). eauto.
    + by apply (indexed_start state_list).
  - destruct H as [-> Hnot]. split; [done|]. intros Hnd. apply Hnot.
    split; [done|]. intros k _. apply lookup_empty.
Qed.

(** The loop over a list of transitions that breaks no rule returns. *)
Lemma transitions_loop_accepts m0 (l : list Transition) :
  indexed m0 [] m0 → endpoints_in m0 l → unique_edges l → unique_labels l →
  ∃ m, for_each _validate_and_add_transition l m0 = Ok m ∧ indexed m0 l m.
Proof.
  intros Hidx Hends Hedges Hlabels.
  pose proof (add_transitions_spec m0 l [] m0 Hidx (Forall_nil_2 _)
                (NoDup_nil_2) (NoDup_nil_2)) as H. simpl in H.
  destruct (for_each _ l m0) as [m|x].
  - exists m. by destruct H as (? & _).
  - destruct H as (e & _ & He). by destruct (kind e).
Qed.

(** X1. Whatever the constructor raises is an [FSMException] of one of
    the five construction errors: the lookups chained after the checks
    never meet [None], and no key is missing in the assignments. *)
Theorem constructor_raises_FSMException initial_state_name
    (state_list : list State) (transition_list : list Transition) (x : PyExn) :
  FSM_init initial_state_name state_list transition_list = Raise x →
  ∃ e, x = FSMExc e ∧ kind e ≠ UnknownTransitionError.
Proof.
  intros Hinit.
  pose proof (FSM_init_spec initial_state_name state_list transition_list) as H.
  rewrite Hinit in H. destruct H as (e & -> & Hnot). exists e. split; [done|].
  intros Hk. rewrite Hk in Hnot. by apply Hnot.
Qed.

(** X2. A repeated state name is reported before anything else: the
    constructor raises the duplicate-state exception whatever the
    transitions and the initial state name are. *)
Theorem duplicate_state_reported_first initial_state_name
    (state_list : list State) (transition_list : list Transition) :
  ¬ unique_state_names state_list →
  FSM_init initial_state_name state_list transition_list
  = Raise (FSMExc DuplicateState).
Proof.
  intros Hdup. unfold FSM_init, _initialize_fsm_data_struture.
  pose proof (states_loop state_list) as H.
  destruct (for_each _ state_list ∅) as [m0|x]; simpl.
  - by destruct H as (? & _).
  - by destruct H as [-> _].
Qed.

(** X3. The transitions are checked in list order, and each one for its
    source, its destination, its edge and its name, in this order: with
    unique state names and a prefix [l1] that breaks no rule, the
    exception is the one of the first check that the next transition
    fails, whatever follows it in the list. *)
Theorem first_offending_transition initial_state_name (state_list : list State)
    (l1 : list Transition) t (l2 : list Transition) :
  unique_state_names state_list →
  known_endpoints state_list l1 → unique_edges l1 → unique_labels l1 →
  (source_name t ∉ names state_list →
   FSM_init initial_state_name state_list (l1 ++ t :: l2)
   = Raise (FSMExc (InvalidSource (source_name t) (Transition_name t))))
  ∧ (source_name t ∈ names state_list →
     destination_name t ∉ names state_list →
     FSM_init initial_state_name state_list (l1 ++ t :: l2)
     = Raise (FSMExc (InvalidDestination (destination_name t) (Transition_name t))))
  ∧ (source_name t ∈ names state_list →
     destination_name t ∈ names state_list →
     edge t ∈ edge <$> l1 →
     FSM_init initial_state_name state_list (l1 ++ t :: l2)
     = Raise (FSMExc (DuplicateEdge (source_name t) (destination_name t))))
  ∧ (source_name t ∈ names state_list →
     destination_name t ∈ names state_list →
     edge t ∉ edge <$> l1 →
     label t ∈ label <$> l1 →
     FSM_init initial_state_name state_list (l1 ++ t :: l2)
     = Raise (FSMExc (DuplicateTransitionName (Transition_name t) (source_name t)))).
Proof.
  intros Hnames Hends Hedges Hlabels.
  unfold FSM_init, _initialize_fsm_data_struture.
  pose proof (states_loop state_list) as H.
  destruct (for_each _ state_list ∅) as [m0|x]; simpl.
  2: { by destruct H as [_ ?]. }
  destruct H as (_ & Hdom & Hidx0).
  destruct (transitions_loop_accepts m0 l1 Hidx0) as (m & Hm & Hidx); try done.
  { by apply (endpoints_in_known state_list). }
  rewrite for_each_app, Hm. simpl. rewrite _validate_and_add_transition_eq.
  assert (∀ k, is_Some (m !! k) ↔ k ∈ names state_list) as Hdom'.
  { intros k. rewrite <- Hdom, <- !fmap_is_Some with (f := state).
    by rewrite (indexed_states _ _ _ Hidx). }
  split_and!.
  - intros Hsrc. destruct (m !! source_name t) as [e|] eqn:He; [|done].
    destruct Hsrc. apply Hdom'. eauto.
  - intros Hsrc Hdst. destruct (proj2 (Hdom' _) Hsrc) as [e ->].
    destruct (m !! destination_name t) as [e'|] eqn:He'; [|done].
    destruct Hdst. apply Hdom'. eauto.
  - intros Hsrc Hdst (t' & Heq & Hin)%list_elem_of_fmap.
    destruct (proj2 (Hdom' _) Hsrc) as [e He]. rewrite He.
    destruct (proj2 (Hdom' _) Hdst) as [e' ->].
    assert (destination_states e !! destination_name t = Some t') as ->; [|done].
    apply (indexed_destination_states _ _ _ Hidx _ _ _ _ He). by split.
  - intros Hsrc Hdst Hedge (t' & Heq & Hin)%list_elem_of_fmap.
    destruct (proj2 (Hdom' _) Hsrc) as [e He]. rewrite He.
    destruct (proj2 (Hdom' _) Hdst) as [e' ->].
    destruct (destination_states e !! destination_name t) as [t''|] eqn:Hd.
    { apply (indexed_destination_states _ _ _ Hidx _ _ _ _ He) in Hd as [Hin' Heq'].
      destruct Hedge. apply list_elem_of_fmap. by exists t''. }
    simpl.
    assert (transitions e !! Transition_name t = Some t') as ->; [|done].
    apply (indexed_transitions _ _ _ Hidx _ _ _ _ He). by split.
Qed.

(** The map the constructor builds is determined by which states and
    which transitions it was given. *)
Lemma built_unique (sl sl' : list State) (tl tl' : list Transition) m m' :
  (∀ s, s ∈ sl ↔ s ∈ sl') → (∀ t, t ∈ tl ↔ t ∈ tl') →
  built sl tl m → built sl' tl' m' → m = m'.
Proof.
  intros Hsl Htl (Hdom & Hst & Htr & Hde) (Hdom' & Hst' & Htr' & Hde').
  assert (∀ k, k ∈ names sl ↔ k ∈ names sl') as Hnames.
  { intros k. unfold names. rewrite !list_elem_of_fmap.
    split; intros (s & -> & Hs); exists s; (split; [done|]); by apply Hsl. }
  apply map_eq. intros k.
  destruct (m !! k) as [e|] eqn:He; destruct (m' !! k) as [e'|] eqn:He'.
  - f_equal.
    assert (k ∈ names sl) as (s & -> & Hs)%list_elem_of_fmap
      by (apply Hdom; eauto).
    pose proof (Hst _ Hs) as H1. rewrite He in H1.
    pose proof (Hst' _ (proj1 (Hsl _) Hs)) as H2. rewrite He' in H2.
    injection H1 as H1. injection H2 as H2.
    destruct e as [s1 tr1 de1], e' as [s2 tr2 de2]. simpl in *. subst s1 s2.
    f_equal.
    + apply map_eq. intros n. apply option_eq. intros t.
      rewrite (Htr _ _ n t He), (Htr' _ _ n t He'). simpl. by rewrite Htl.
    + apply map_eq. intros d. apply option_eq. intros t.
      rewrite (Hde _ _ d t He), (Hde' _ _ d t He'). simpl. by rewrite Htl.
  - assert (is_Some (m' !! k)) as Hk by (apply Hdom', Hnames, Hdom; eauto).
    rewrite He' in Hk. by apply is_Some_None in Hk.
  - assert (is_Some (m !! k)) as Hk by (apply Hdom, Hnames, Hdom'; eauto).
    rewrite He in Hk. by apply is_Some_None in Hk.
  - done.
Qed.

(** X4. The order in which the states and the transitions are listed does
    not matter to a construction that succeeds: the same states and
    transitions in another order give the same engine. *)
Theorem registration_order_irrelevant initial_state_name
    (state_list state_list' : list State)
    (transition_list transition_list' : list Transition) self :
  state_list ≡ₚ state_list' →
  transition_list ≡ₚ transition_list' →
  FSM_init initial_state_name state_list transition_list = Ok self →
  FSM_init initial_state_name state_list' transition_list' = Ok self.
Proof.
  intros Hsl Htl Hinit.
  pose proof (FSM_init_spec initial_state_name state_list transition_list) as H.
  rewrite Hinit in H.
  destruct H as ((Hn & Hk & He & Hl & Hne & Hreg) & Hstate & Hb).
  pose proof (FSM_init_spec initial_state_name state_list' transition_list') as H'.
  destruct (FSM_init _ state_list' _) as [self'|x].
  - destruct H' as (_ & Hstate' & Hb'). f_equal.
    destruct self as [c m], self' as [c' m']. simpl in *. subst c c'. f_equal.
    symmetry. apply (built_unique state_list state_list'
                       transition_list transition_list'); try done.
    + intros s. by rewrite Hsl.
    + intros t. by rewrite Htl.
  - destruct H' as (e & _ & Hnot). exfalso.
    destruct (kind e); simpl in Hnot; apply Hnot; try done.
    + unfold unique_state_names, names in *. by rewrite <- Hsl.
    + unfold known_endpoints, names in *. rewrite <- Htl.
      eapply Forall_impl; [exact Hk|]. simpl. intros t. by rewrite Hsl.
    + unfold unique_edges in *. by rewrite <- Htl.
    + unfold unique_labels in *. by rewrite <- Htl.
    + split; [done|]. unfold names in *. by rewrite <- Hsl.
Qed.

(** X5. Every state given to the constructor is found under its name,
    with its hooks, in every engine reached from it, and nothing else is
    registered. *)
Theorem registered_states_lookup (state_list : list State)
    (transition_list : list Transition) self :
  reachable state_list transition_list self →
  (∀ s, s ∈ state_list →
     ∃ e, _state_transition_map self !! State_name s = Some e ∧ state e = s)
  ∧ (∀ k e, _state_transition_map self !! k = Some e →
       state e ∈ state_list ∧ State_name (state e) = k).
Proof.
  intros (Hb & _ & _)%reachable_inv. pose proof Hb as (Hdom & Hst & _). split.
  - intros s Hs. specialize (Hst _ Hs).
    destruct (_ !! State_name s) as [e|]; [|done].
    exists e. split; [done|]. by injection Hst.
  - intros k e He.
    assert (k ∈ names state_list) as (s & -> & Hs)%list_elem_of_fmap
      by (apply Hdom; eauto).
    specialize (Hst _ Hs). rewrite He in Hst. injection Hst as ->. done.
Qed.

End MoreConstruction.

(** ** More on execution *)

Section MoreExecution.
Context {Value World UserExn : Type}.
Local Abbreviation State := (State Value World UserExn).
Local Abbreviation Transition := (Transition Value World UserExn).
Local Abbreviation Entry := (Entry Value World UserExn).
Local Abbreviation FSM := (FSM Value World UserExn).
Local Abbreviation kwargs := (kwargs Value).
Local Abbreviation PyExn := (PyExn UserExn).
Implicit Types (self : FSM) (kw : kwargs) (w : World) (t : Transition).

(** X6. An operation that raises, whatever it raises and whichever hooks
    have run, leaves the engine exactly as it was. *)
Theorem failed_operation_leaves_engine self kw w (x : PyExn) self' w' :
  (∀ transition_name,
     execute_transition transition_name kw self w = (Raise x, self', w') →
     self' = self)
  ∧ (∀ destination,
     execute_transition_to destination kw self w = (Raise x, self', w') →
     self' = self).
Proof.
  split.
  - intros n. rewrite execute_transition_eq.
    destruct (existsb _ execute_transition_parameters);
      [by intros [= _ <- _]|].
    destruct (_ !! FSM_state self) as [e|]; [|by intros [= _ <- _]].
    destruct (transitions e !! n) as [t|]; [|by intros [= _ <- _]].
    destruct (_ !! destination_name t) as [ed|]; [|by intros [= _ <- _]].
    intros (_ & _ & H)%protocol_frame. by apply (H x).
  - intros d. rewrite execute_transition_to_eq.
    destruct (existsb _ execute_transition_to_parameters);
      [by intros [= _ <- _]|].
    destruct (_ !! d) as [ed|]; [|by intros [= _ <- _]].
    destruct (_ !! FSM_state self) as [e|]; [|by intros [= _ <- _]].
    destruct (destination_states e !! d) as [t|]; [|by intros [= _ <- _]].
    intros (_ & _ & H)%protocol_frame. by apply (H x).
Qed.

(** X7. The current state of an engine is always one of the states given
    to the constructor. *)
Theorem current_state_registered (state_list : list State)
    (transition_list : list Transition) self :
  reachable state_list transition_list self →
  FSM_state self ∈ names state_list.
Proof.
  intros ((Hdom & _) & Hcur & _)%reachable_inv. by apply Hdom.
Qed.

(** X8. An operation that returns has followed one transition of the
    list: it leaves the state the engine was in and ends in the state
    the engine is in afterwards, it has the name asked for (by name) or
    ends in the destination asked for (by destination). *)
Theorem success_follows_edge (state_list : list State)
    (transition_list : list Transition) self kw w self' w' :
  reachable state_list transition_list self →
  (∀ transition_name,
     execute_transition transition_name kw self w = (Ok (), self', w') →
     ∃ t, t ∈ transition_list
          ∧ Transition_name t = transition_name
          ∧ source_name t = FSM_state self
          ∧ destination_name t = FSM_state self')
  ∧ (∀ destination,
     execute_transition_to destination kw self w = (Ok (), self', w') →
     FSM_state self' = destination
     ∧ ∃ t, t ∈ transition_list
            ∧ source_name t = FSM_state self
            ∧ destination_name t = destination).
Proof.
  intros Hreach. pose proof (reachable_inv _ _ _ Hreach) as (Hb & _ & _).
  destruct (reachable_current _ _ _ Hreach) as (e & He & _ & Htr & Hde).
  split.
  - intros n. rewrite execute_transition_eq, He.
    destruct (existsb _ execute_transition_parameters); [done|].
    destruct (transitions e !! n) as [t|] eqn:Ht; [|done].
    destruct (_ !! destination_name t) as [ed|] eqn:Hed; [|done].
    intros (_ & _ & ->)%protocol_returns. exists t.
    apply Htr in Ht as (? & ? & ?). simpl.
    by rewrite (built_state_name _ _ _ _ _ Hb Hed).
  - intros d. rewrite execute_transition_to_eq.
    destruct (existsb _ execute_transition_to_parameters); [done|].
    destruct (_ !! d) as [ed|] eqn:Hed; [|done]. rewrite He.
    destruct (destination_states e !! d) as [t|] eqn:Ht; [|done].
    intros (_ & _ & ->)%protocol_returns. simpl.
    split; [by apply (built_state_name _ _ _ _ _ Hb Hed)|].
    exists t. by apply Hde in Ht as (? & ? & ?).
Qed.

(** Both operations on a transition that leaves the current state are,
    once the payload is bound, the protocol run on the same three
    objects. *)
Lemma resolve_transition (state_list : list State)
    (transition_list : list Transition) self t :
  reachable state_list transition_list self →
  t ∈ transition_list →
  source_name t = FSM_state self →
  ∃ e ed,
    _state_transition_map self !! FSM_state self = Some e
    ∧ _state_transition_map self !! destination_name t = Some ed
    ∧ state e ∈ state_list ∧ State_name (state e) = FSM_state self
    ∧ state ed ∈ state_list ∧ State_name (state ed) = destination_name t
    ∧ ∀ kw w,
        execute_transition (Transition_name t) kw self w
        = (if existsb (λ p, truthy (kw !! p)) execute_transition_parameters
           then (Raise TypeError, self, w)
           else _execute (state e) (state ed) t kw self w)
        ∧ execute_transition_to (destination_name t) kw self w
          = (if existsb (λ p, truthy (kw !! p)) execute_transition_to_parameters
             then (Raise TypeError, self, w)
             else _execute (state e) (state ed) t kw self w).
Proof.
  intros Hreach Hin Hsrc.
  pose proof (reachable_inv _ _ _ Hreach) as ((Hdom & Hst & _) & _ & _).
  assert (∀ k e, _state_transition_map self !! k = Some e →
                 state e ∈ state_list ∧ State_name (state e) = k) as Hstates.
  { intros k e He.
    assert (k ∈ names state_list) as (s & -> & Hs)%list_elem_of_fmap
      by (apply Hdom; eauto).
    specialize (Hst _ Hs). rewrite He in Hst. by injection Hst as ->. }
  destruct (reachable_current _ _ _ Hreach) as (e & He & _ & Htr & Hde).
  destruct (reachable_registered _ _ _ (destination_name t) Hreach)
    as (ed & Hed & _); [by eapply reachable_destination|].
  exists e, ed. destruct (Hstates _ _ He), (Hstates _ _ Hed).
  split_and!; try done. intros kw w.
  rewrite execute_transition_eq, execute_transition_to_eq, He, Hed.
  by rewrite (proj2 (Htr _ t)), (proj2 (Hde _ t)), Hed.
Qed.

(** X9. The two operations agree: with a payload that has neither the
    key [transition_name] nor the key [destination_name], executing a
    transition that leaves the current state by its name and executing it
    by its destination give the same result. *)
Theorem entry_points_agree (state_list : list State)
    (transition_list : list Transition) self t kw w :
  reachable state_list transition_list self →
  t ∈ transition_list →
  source_name t = FSM_state self →
  kw !! "transition_name" = None →
  kw !! "destination_name" = None →
  execute_transition (Transition_name t) kw self w
  = execute_transition_to (destination_name t) kw self w.
Proof.
  intros Hreach Hin Hsrc Hname Hdest.
  destruct (resolve_transition _ _ _ _ Hreach Hin Hsrc)
    as (e & ed & _ & _ & _ & _ & _ & _ & H).
  destruct (H kw w) as [-> ->].
  unfold execute_transition_parameters, execute_transition_to_parameters.
  simpl. by rewrite Hname, Hdest.
Qed.

(** X10. Why an operation raises.  [execute_transition] raises for one of
    three reasons: no transition of that name leaves the current state;
    the payload has a key that is a parameter of the operation or of
    [_execute]; a hook raised.  [execute_transition_to] has one more: the
    destination is not registered.  In particular the [AttributeError]
    and [KeyError] of the chained lookups never come out of a reachable
    engine unless a hook raised them. *)
Theorem failure_causes (state_list : list State)
    (transition_list : list Transition) self kw w (x : PyExn) self' w' :
  reachable state_list transition_list self →
  (∀ transition_name,
     execute_transition transition_name kw self w = (Raise x, self', w') →
     (x = FSMExc (InvalidTransition transition_name (FSM_state self)) ∧ w' = w)
     ∨ (x = TypeError
        ∧ (¬ accepted_by execute_transition_parameters kw ∨ ¬ binds kw)
        ∧ w' = w)
     ∨ ∃ e t ed,
         _state_transition_map self !! FSM_state self = Some e
         ∧ transitions e !! transition_name = Some t
         ∧ _state_transition_map self !! destination_name t = Some ed
         ∧ hook_raises (state e) t (state ed) kw (FSM_state self) w x w')
  ∧ (∀ destination,
     execute_transition_to destination kw self w = (Raise x, self', w') →
     (x = FSMExc (InvalidState destination) ∧ w' = w)
     ∨ (x = FSMExc (NoTransitionBetween (FSM_state self) destination) ∧ w' = w)
     ∨ (x = TypeError
        ∧ (¬ accepted_by execute_transition_to_parameters kw ∨ ¬ binds kw)
        ∧ w' = w)
     ∨ ∃ e t ed,
         _state_transition_map self !! FSM_state self = Some e
         ∧ destination_states e !! destination = Some t
         ∧ _state_transition_map self !! destination = Some ed
         ∧ hook_raises (state e) t (state ed) kw (FSM_state self) w x w').
Proof.
  intros Hreach.
  destruct (reachable_current _ _ _ Hreach) as (e & He & _ & Htr & Hde).
  assert (∀ (src dst : State) t,
    _execute src dst t kw self w = (Raise x, self', w') →
    (x = TypeError ∧ ¬ binds kw ∧ w' = w)
    ∨ hook_raises src t dst kw (FSM_state self) w x w') as Hprotocol.
  { intros src dst t. rewrite protocol_eq. unfold binds.
    destruct (existsb _ _) eqn:Hb.
    { intros [= <- _ <-]. left. by split_and!. }
    destruct (State_exit_state _ _ _ _) as [[[]|x1] w1] eqn:H1.
    2: { intros [= <- _ <-]. right. by eapply raises_in_exit. }
    destruct (Transition_execute _ _ _ _) as [[[]|x2] w2] eqn:H2.
    2: { intros [= <- _ <-]. right. by eapply raises_in_transition. }
    destruct (State_enter_state _ _ _ _) as [[[]|x3] w3] eqn:H3; [done|].
    intros [= <- _ <-]. right. by eapply raises_in_entry. }
  split.
  - intros n. rewrite execute_transition_eq, He.
    destruct (existsb _ execute_transition_parameters) eqn:Hentry.
    { intros [= <- _ <-]. right; left. split; [done|]. split; [|done].
      left. unfold accepted_by. by rewrite Hentry. }
    destruct (transitions e !! n) as [t|] eqn:Ht.
    2: { intros [= <- _ <-]. by left. }
    pose proof (proj1 (Htr _ _) Ht) as (Hin & _ & _).
    destruct (reachable_registered _ _ _ (destination_name t) Hreach)
      as (ed & Hed & _); [by eapply reachable_destination|].
    rewrite Hed. intros [(? & ? & ?)|H]%Hprotocol.
    { right; left. split; [done|]. split; [by right|done]. }
    right; right. by exists e, t, ed.
  - intros d. rewrite execute_transition_to_eq.
    destruct (existsb _ execute_transition_to_parameters) eqn:Hentry.
    { intros [= <- _ <-]. right; right; left. split; [done|]. split; [|done].
      left. unfold accepted_by. by rewrite Hentry. }
    destruct (_ !! d) as [ed|] eqn:Hed.
    2: { intros [= <- _ <-]. by left. }
    rewrite He. destruct (destination_states e !! d) as [t|] eqn:Ht.
    2: { intros [= <- _ <-]. by right; left. }
    intros [(? & ? & ?)|H]%Hprotocol.
    { right; right; left. split; [done|]. split; [by right|done]. }
    right; right; right. by exists e, t, ed.
Qed.

(** X11. A payload with a key named like a parameter of [_execute]
    ([source_state], [destination_state], [transition]) makes every
    execution of an existing transition raise [TypeError], before any
    hook runs. *)
Theorem payload_key_clash (state_list : list State)
    (transition_list : list Transition) self t kw w key :
  reachable state_list transition_list self →
  t ∈ transition_list →
  source_name t = FSM_state self →
  key ∈ _execute_parameters →
  is_Some (kw !! key) →
  execute_transition (Transition_name t) kw self w = (Raise TypeError, self, w)
  ∧ execute_transition_to (destination_name t) kw self w
    = (Raise TypeError, self, w).
Proof.
  intros Hreach Hin Hsrc Hkey Hkw.
  destruct (resolve_transition _ _ _ _ Hreach Hin Hsrc)
    as (e & ed & _ & _ & _ & _ & _ & _ & H).
  destruct (H kw w) as [-> ->]. rewrite protocol_eq.
  assert (existsb (λ p, truthy (kw !! p)) _execute_parameters = true) as ->.
  { apply existsb_exists. exists key. split; [by apply list_elem_of_In|].
    by apply truthy_true. }
  by destruct (existsb _ execute_transition_parameters),
       (existsb _ execute_transition_to_parameters).
Qed.

(** X12. Hooks are optional: with a payload that binds, a transition
    between states that have no exit and no entry hook, itself without a
    hook, only moves the engine; the world is untouched. *)
Theorem hookless_transition (state_list : list State)
    (transition_list : list Transition) self (source destination : State)
    t kw w :
  reachable state_list transition_list self →
  source ∈ state_list → destination ∈ state_list → t ∈ transition_list →
  State_name source = FSM_state self →
  source_name t = FSM_state self →
  destination_name t = State_name destination →
  _before_exit source = None →
  _on_transition t = None →
  _after_entry destination = None →
  accepted_by execute_transition_parameters kw →
  binds kw →
  execute_transition (Transition_name t) kw self w
  = (Ok (), mkFSM (State_name destination) (_state_transition_map self), w).
Proof.
  intros Hreach Hs Hd Hin Hname Hsrc Hdst Hexit Hrun Henter Hentry Hbinds.
  pose proof (reachable_inv _ _ _ Hreach) as ((_ & Hst & _) & _ & _).
  destruct (resolve_transition _ _ _ _ Hreach Hin Hsrc)
    as (e & ed & He & Hed & _ & _ & _ & _ & H).
  destruct (H kw w) as [-> _]. rewrite Hentry.
  pose proof (Hst _ Hs) as H1. rewrite Hname, He in H1. injection H1 as H1.
  pose proof (Hst _ Hd) as H2. rewrite <- Hdst, Hed in H2. injection H2 as H2.
  rewrite H1, H2. apply protocol_returns. split; [done|]. split; [|done].
  exists w, w. unfold State_exit_state, Transition_execute, State_enter_state.
  by rewrite Hexit, Hrun, Henter.
Qed.

End MoreExecution.

(** ** The builder *)

Section BuilderProperties.
Context {Value World UserExn : Type}.
Local Abbreviation State := (State Value World UserExn).
Local Abbreviation Transition := (Transition Value World UserExn).
Local Abbreviation FSM := (FSM Value World UserExn).
Local Abbreviation FSMBuilder := (FSMBuilder Value World UserExn).
Local Abbreviation callback := (callback Value World UserExn).
Implicit Types (b : FSMBuilder) (before_exit after_entry : option callback).

(** The class called with a string is [FSM_init]; called with [None] it
    raises after the two loops have run. *)
Lemma FSM_new_spec (initial_state_name : option string) (sl : list State)
    (tl : list Transition) :
  match FSM_new initial_state_name sl tl with
  | Ok self =>
      ∃ name, initial_state_name = Some name ∧ FSM_init name sl tl = Ok self
  | Raise x =>
      ∃ e, x = FSMExc e
        ∧ (unique_state_names sl → e ≠ DuplicateState)
        ∧ (¬ unique_state_names sl → e = DuplicateState)
        ∧ (initial_state_name = None → unique_state_names sl →
           known_endpoints sl tl → unique_edges tl → unique_labels tl →
           e = IncorrectInitialState)
  end.
Proof.
  destruct initial_state_name as [name|]; simpl.
  - pose proof (FSM_init_spec name sl tl) as H.
    destruct (FSM_init name sl tl) as [self|x] eqn:Hinit; [by exists name|].
    destruct H as (e & -> & Hnot). exists e. split; [done|]. split_and!.
    + intros Hnd ->. by apply Hnot.
    + intros Hdup. unfold FSM_init, _initialize_fsm_data_struture in Hinit.
      pose proof (states_loop sl) as Hs.
      destruct (for_each _validate_and_add_state sl ∅) as [m0|x0];
        simpl in Hinit.
      * by destruct Hs as (? & _).
      * destruct Hs as [-> _]. by injection Hinit as <-.
    + done.
  - pose proof (states_loop sl) as Hs. unfold _initialize_fsm_data_struture.
    destruct (for_each _validate_and_add_state sl ∅) as [m0|x0]; simpl.
    2: { destruct Hs as [-> Hdup]. exists DuplicateState. by split_and!. }
    destruct Hs as (Hnd & Hdom & Hidx).
    pose proof (add_transitions_spec m0 tl [] m0 Hidx (Forall_nil_2 _)
                  (NoDup_nil_2) (NoDup_nil_2)) as Ht. simpl in Ht.
    destruct (for_each _ tl m0) as [m|x]; simpl.
    + exists IncorrectInitialState. by split_and!.
    + destruct Ht as (e & -> & He). exists e. split; [done|]. split_and!.
      * intros _ ->. done.
      * done.
      * intros _ _ Hk He' Hl. exfalso.
        destruct (kind e); try done; apply He; try done.
        by apply (endpoints_in_known sl).
Qed.

(** X13. [build] on a builder whose initial state was never set raises
    [FSMException] whatever was staged, and on staged states and
    transitions that break no rule it raises the exception of the initial
    state. *)
Theorem build_without_initial_state b :
  _initial_state_name b = None →
  (∃ e, build b = Raise (FSMExc e))
  ∧ (unique_state_names (_states b) →
     known_endpoints (_states b) (_transitions b) →
     unique_edges (_transitions b) → unique_labels (_transitions b) →
     build b = Raise (FSMExc IncorrectInitialState)).
Proof.
  intros Hnone. unfold build.
  pose proof (FSM_new_spec (_initial_state_name b) (_states b) (_transitions b))
    as H.
  destruct (FSM_new _ _ _) as [self|x].
  { destruct H as (name & Hsome & _). congruence. }
  destruct H as (e & -> & _ & _ & Hinit). split; [by exists e|].
  intros. f_equal. f_equal. by apply Hinit.
Qed.

(** X14. The builder does not check names when they are staged: a state
    staged under a name that is already staged is accepted, and every
    later [build] raises the duplicate-state exception, whatever else is
    staged and whatever the initial state is. *)
Theorem duplicate_named_state b name before_exit after_entry :
  name ∈ names (_states b) →
  build (add_named_state name before_exit after_entry b).2
  = Raise (FSMExc DuplicateState).
Proof.
  intros Hin. unfold build, add_named_state. simpl.
  pose proof (FSM_new_spec (_initial_state_name b)
                (_states b ++ [mkState name before_exit after_entry])
                (_transitions b)) as H.
  assert (¬ unique_state_names
              (_states b ++ [mkState name before_exit after_entry])) as Hdup.
  { unfold unique_state_names, names. rewrite fmap_app. simpl.
    intros (_ & Hdisj & _)%NoDup_app. apply (Hdisj name); [done|left]. }
  destruct (FSM_new _ _ _) as [self|x].
  - destruct H as (n & _ & Hinit).
    pose proof (FSM_init_spec n (_states b ++ [mkState name before_exit after_entry])
                  (_transitions b)) as Hspec.
    rewrite Hinit in Hspec. by destruct Hspec as ((? & _) & _).
  - destruct H as (e & -> & _ & He & _). by rewrite (He Hdup).
Qed.

Lemma append_inj_prefix (prefix a c : string) :
  prefix +:+ a = prefix +:+ c → a = c.
Proof.
  induction prefix as [|ch prefix IH]; simpl; [done|].
  intros [= H]. by apply IH.
Qed.

Lemma _generate_random_name_inj prefix token1 token2 :
  _generate_random_name prefix token1 = _generate_random_name prefix token2 →
  token1 = token2.
Proof.
  unfold _generate_random_name. intros H%append_inj_prefix.
  by injection H.
Qed.

(** X15. Two states staged by [add_state] have the same name exactly when
    the two draws gave the same token; in that case [build] raises the
    duplicate-state exception. *)
Theorem add_state_twice b token1 token2 before_exit after_entry
    before_exit' after_entry' :
  let (s1, b1) := add_state token1 before_exit after_entry b in
  let (s2, b2) := add_state token2 before_exit' after_entry' b1 in
  (State_name s1 = State_name s2 ↔ token1 = token2)
  ∧ (token1 = token2 → build b2 = Raise (FSMExc DuplicateState)).
Proof.
  unfold add_state, add_named_state. simpl. split.
  - split; [apply _generate_random_name_inj | by intros ->].
  - intros ->. unfold build. simpl.
    set (sl := (_states b ++ _) ++ _).
    pose proof (FSM_new_spec (_initial_state_name b) sl (_transitions b)) as H.
    assert (¬ unique_state_names sl) as Hdup.
    { unfold unique_state_names, names, sl. rewrite !fmap_app. simpl.
      intros (_ & Hdisj & _)%NoDup_app.
      apply (Hdisj (_generate_random_name "state" token2)); [|left].
      apply elem_of_app. right. left. }
    destruct (FSM_new _ _ _) as [self|x].
    + destruct H as (n & _ & Hinit).
      pose proof (FSM_init_spec n sl (_transitions b)) as Hspec.
      rewrite Hinit in Hspec. by destruct Hspec as ((? & _) & _).
    + destruct H as (e & -> & _ & He & _). by rewrite (He Hdup).
Qed.

(** X16. A state staged by [add_state] can always be made the initial
    state: its generated name is not empty, and on a builder whose staged
    states and transitions break no rule and do not use that name yet,
    [build] returns an engine in that state. *)
Theorem generated_state_as_initial b token before_exit after_entry :
  unique_state_names (_states b) →
  known_endpoints (_states b) (_transitions b) →
  unique_edges (_transitions b) → unique_labels (_transitions b) →
  _generate_random_name "state" token ∉ names (_states b) →
  let (s, b1) := add_state token before_exit after_entry b in
  State_name s = "state_" +:+ token
  ∧ ∃ self, build (set_initial_state (State_name s) b1) = Ok self
            ∧ FSM_state self = State_name s.
Proof.
  intros Hn Hk He Hl Hfresh. unfold add_state, add_named_state, build. simpl.
  split; [done|]. set (name := _generate_random_name "state" token) in *.
  set (s := mkState name before_exit after_entry).
  pose proof (FSM_init_spec name (_states b ++ [s]) (_transitions b)) as H.
  destruct (FSM_init _ _ _) as [self|x].
  { exists self. by destruct H as (_ & ? & _). }
  destruct H as (e & _ & Hnot). exfalso.
  destruct (kind e); simpl in Hnot; apply Hnot; try done.
  - unfold unique_state_names, names in *. rewrite fmap_app. simpl.
    apply NoDup_app. split_and!; [done| |apply NoDup_singleton].
    intros k Hin [->|[]%elem_of_nil]%elem_of_cons. done.
  - unfold known_endpoints, names in *. eapply Forall_impl; [exact Hk|].
    simpl. intros t [? ?]. rewrite fmap_app, !elem_of_app. by split; left.
  - split; [done|]. unfold names. rewrite fmap_app, elem_of_app. right. left.
Qed.

(** X17. A transition staged by [add_transition] between two staged
    states, on a builder that [build] accepts, with an edge and a
    generated name that are new at its source, is built: [build] still
    returns an engine in the initial state, and the transition is found
    under its source by its name and by its destination. *)
Theorem staged_transition_is_built b token source destination
    (on_transition : option callback) initial :
  _initial_state_name b = Some initial →
  valid_input initial (_states b) (_transitions b) →
  source ∈ names (_states b) →
  destination ∈ names (_states b) →
  (source, destination) ∉ edge <$> _transitions b →
  (source, _generate_random_name "transition" token) ∉ label <$> _transitions b →
  let (t, b1) := add_transition token source destination on_transition b in
  Transition_name t = "transition_" +:+ token
  ∧ ∃ self e,
      build b1 = Ok self
      ∧ FSM_state self = initial
      ∧ _state_transition_map self !! source = Some e
      ∧ transitions e !! Transition_name t = Some t
      ∧ destination_states e !! destination = Some t.
Proof.
  intros Hinit (Hn & Hk & He & Hl & Hi) Hsrc Hdst Hedge Hlabel.
  unfold add_transition, add_named_transition, build. simpl.
  split; [done|]. rewrite Hinit. simpl.
  set (name := _generate_random_name "transition" token) in *.
  set (t := mkTransition name source destination on_transition).
  pose proof (FSM_init_spec initial (_states b) (_transitions b ++ [t])) as H.
  destruct (FSM_init _ _ _) as [self|x].
  - destruct H as (_ & Hstate & Hdom & _ & Htr & Hde).
    destruct (proj2 (Hdom source) Hsrc) as [e Hlook].
    exists self, e. split_and!; try done.
    + apply (Htr _ _ _ _ Hlook). split; [|done].
      apply elem_of_app. right. left.
    + apply (Hde _ _ _ _ Hlook). split; [|done].
      apply elem_of_app. right. left.
  - destruct H as (e & _ & Hnot). exfalso.
    destruct (kind e); simpl in Hnot; apply Hnot; try done.
    + unfold known_endpoints in *. apply Forall_app. split; [done|].
      by apply Forall_singleton.
    + unfold unique_edges in *. apply NoDup_fmap_snoc; [done|].
      intros t' Hin Heq. apply Hedge. apply list_elem_of_fmap. by exists t'.
    + unfold unique_labels in *. apply NoDup_fmap_snoc; [done|].
      intros t' Hin Heq. apply Hlabel. apply list_elem_of_fmap. by exists t'.
Qed.

End BuilderProperties.

(** ** The messages *)

(** X18. The message tells the errors apart: two exceptions of the engine
    with the same message are of the same kind, whatever the names
    formatted into them. *)
Theorem message_determines_kind (e1 e2 : FSMException) :
  message e1 = message e2 → kind e1 = kind e2.
Proof.
  destruct e1, e2; simpl; intros H; try reflexivity; discriminate H.
Qed.

(** ** The example machines under the further theorems *)

Lemma constructor_raises_FSMException_witness :
  FSM_init "Z" demo_states demo_transitions = Raise (FSMExc IncorrectInitialState)
  ∧ ∃ e, FSMExc (UserExn := string) IncorrectInitialState = FSMExc e
         ∧ kind e ≠ UnknownTransitionError.
Proof.
  assert (FSM_init "Z" demo_states demo_transitions
          = Raise (FSMExc IncorrectInitialState)) as H
    by (vm_compute; reflexivity).
  split; [exact H|]. exact (constructor_raises_FSMException _ _ _ _ H).
Defined.

Lemma duplicate_state_reported_first_witness :
  ¬ unique_state_names (demo_states ++ demo_states)
  ∧ FSM_init "" (demo_states ++ demo_states)
      [recording_transition "t" "A" "Z"]
    = Raise (FSMExc DuplicateState).
Proof.
  assert (¬ unique_state_names (demo_states ++ demo_states)) as H
    by (unfold unique_state_names; by_evaluation).
  split; [exact H|]. exact (duplicate_state_reported_first _ _ _ H).
Defined.

Lemma first_offending_transition_witness :
  unique_state_names demo_states
  ∧ known_endpoints demo_states demo_transitions
  ∧ unique_edges demo_transitions
  ∧ unique_labels demo_transitions
  ∧ ("A" ∈ names demo_states)
  ∧ (edge (recording_transition "t1" "A" "A") ∈ edge <$> demo_transitions)
  ∧ FSM_init "A" demo_states
      (demo_transitions ++ recording_transition "t1" "A" "A"
                           :: [recording_transition "t" "Z" "Z"])
    = Raise (FSMExc (DuplicateEdge "A" "A")).
Proof.
  assert (unique_state_names demo_states) as H1
    by (unfold unique_state_names; by_evaluation).
  assert (known_endpoints demo_states demo_transitions) as H2
    by (unfold known_endpoints; by_evaluation).
  assert (unique_edges demo_transitions) as H3
    by (unfold unique_edges; by_evaluation).
  assert (unique_labels demo_transitions) as H4
    by (unfold unique_labels; by_evaluation).
  assert ("A" ∈ names demo_states) as H5 by by_evaluation.
  assert (edge (recording_transition "t1" "A" "A") ∈ edge <$> demo_transitions)
    as H6 by by_evaluation.
  split_and!; try assumption.
  exact (proj1 (proj2 (proj2 (first_offending_transition "A" demo_states
                                demo_transitions
                                (recording_transition "t1" "A" "A")
                                [recording_transition "t" "Z" "Z"]
                                H1 H2 H3 H4))) H5 H5 H6).
Defined.

Lemma registration_order_irrelevant_witness :
  demo_states ≡ₚ reverse demo_states
  ∧ demo_transitions ≡ₚ reverse demo_transitions
  ∧ FSM_init "A" demo_states demo_transitions = Ok demo
  ∧ FSM_init "A" (reverse demo_states) (reverse demo_transitions) = Ok demo.
Proof.
  assert (demo_states ≡ₚ reverse demo_states) as H1
    by (symmetry; apply reverse_Permutation).
  assert (demo_transitions ≡ₚ reverse demo_transitions) as H2
    by (symmetry; apply reverse_Permutation).
  split_and!; try assumption; [exact demo_built|].
  exact (registration_order_irrelevant _ _ _ _ _ _ H1 H2 demo_built).
Defined.

Lemma registered_states_lookup_witness :
  reachable demo_states demo_transitions demo
  ∧ (∀ s, s ∈ demo_states →
       ∃ e, _state_transition_map demo !! State_name s = Some e ∧ state e = s)
  ∧ (∀ k e, _state_transition_map demo !! k = Some e →
       state e ∈ demo_states ∧ State_name (state e) = k).
Proof.
  split; [exact demo_reachable|].
  exact (registered_states_lookup _ _ _ demo_reachable).
Defined.

Lemma failed_operation_leaves_engine_witness :
  execute_transition "u" ∅ faulty []
  = (Raise (HookExc "entry"), faulty, [Exited "A" "A"; Ran "u" "A"])
  ∧ faulty = faulty.
Proof.
  assert (execute_transition "u" ∅ faulty []
          = (Raise (HookExc "entry"), faulty, [Exited "A" "A"; Ran "u" "A"]))
    as H by (vm_compute; reflexivity).
  split; [exact H|].
  exact (proj1 (failed_operation_leaves_engine faulty ∅ [] _ _ _) "u" H).
Defined.

Lemma demo_in_B_reachable :
  reachable demo_states demo_transitions (mkFSM "B" (_state_transition_map demo)).
Proof.
  apply (reach_execute_transition_to _ _ demo "B" ∅ [] (Ok ()) _
           [Exited "A" "A"; Ran "t2" "A"; Entered "B" "A"] demo_reachable).
  vm_compute. reflexivity.
Qed.

Lemma current_state_registered_witness :
  reachable demo_states demo_transitions (mkFSM "B" (_state_transition_map demo))
  ∧ FSM_state (mkFSM "B" (_state_transition_map demo)) ∈ names demo_states.
Proof.
  split; [exact demo_in_B_reachable|].
  exact (current_state_registered _ _ _ demo_in_B_reachable).
Defined.

Lemma success_follows_edge_witness :
  reachable demo_states demo_transitions demo
  ∧ execute_transition "t2" ∅ demo []
    = (Ok (), mkFSM "B" (_state_transition_map demo),
       [Exited "A" "A"; Ran "t2" "A"; Entered "B" "A"])
  ∧ ∃ t, t ∈ demo_transitions
         ∧ Transition_name t = "t2"
         ∧ source_name t = FSM_state demo
         ∧ destination_name t
           = FSM_state (mkFSM "B" (_state_transition_map demo)).
Proof.
  assert (execute_transition "t2" ∅ demo []
          = (Ok (), mkFSM "B" (_state_transition_map demo),
             [Exited "A" "A"; Ran "t2" "A"; Entered "B" "A"])) as H
    by (vm_compute; reflexivity).
  split; [exact demo_reachable|]. split; [exact H|].
  exact (proj1 (success_follows_edge _ _ demo ∅ [] _ _ demo_reachable) "t2" H).
Defined.

Lemma entry_points_agree_witness :
  reachable demo_states demo_transitions demo
  ∧ recording_transition "t2" "A" "B" ∈ demo_transitions
  ∧ source_name (recording_transition "t2" "A" "B") = FSM_state demo
  ∧ ({["test_arg" := 111]} : kwargs nat) !! "transition_name" = None
  ∧ ({["test_arg" := 111]} : kwargs nat) !! "destination_name" = None
  ∧ execute_transition "t2" {["test_arg" := 111]} demo []
    = execute_transition_to "B" {["test_arg" := 111]} demo [].
Proof.
  assert (recording_transition "t2" "A" "B" ∈ demo_transitions) as Hin
    by (right; left).
  split_and!; [exact demo_reachable|exact Hin|reflexivity..|].
  exact (entry_points_agree _ _ demo (recording_transition "t2" "A" "B")
           {["test_arg" := 111]} [] demo_reachable Hin eq_refl
           eq_refl eq_refl).
Defined.

Lemma faulty_reachable : reachable faulty_states faulty_transitions faulty.
Proof. exact (reach_init _ _ "A" faulty faulty_built). Qed.

Lemma failure_causes_witness :
  reachable faulty_states faulty_transitions faulty
  ∧ execute_transition "t" ∅ faulty []
    = (Raise (HookExc "hook"), faulty, [Exited "A" "A"])
  ∧ ((HookExc "hook" = FSMExc (InvalidTransition "t" (FSM_state faulty))
      ∧ [Exited "A" "A"] = [])
     ∨ (HookExc "hook" = TypeError
        ∧ (¬ accepted_by execute_transition_parameters (∅ : kwargs nat)
           ∨ ¬ binds (∅ : kwargs nat))
        ∧ [Exited "A" "A"] = [])
     ∨ ∃ e t ed,
         _state_transition_map faulty !! FSM_state faulty = Some e
         ∧ transitions e !! "t" = Some t
         ∧ _state_transition_map faulty !! destination_name t = Some ed
         ∧ hook_raises (state e) t (state ed) ∅ (FSM_state faulty) []
             (HookExc "hook") [Exited "A" "A"]).
Proof.
  assert (execute_transition "t" ∅ faulty []
          = (Raise (HookExc "hook"), faulty, [Exited "A" "A"])) as H
    by (vm_compute; reflexivity).
  split; [exact faulty_reachable|]. split; [exact H|].
  exact (proj1 (failure_causes _ _ faulty ∅ [] _ _ _ faulty_reachable) "t" H).
Defined.

Lemma payload_key_clash_witness :
  reachable demo_states demo_transitions demo
  ∧ recording_transition "t2" "A" "B" ∈ demo_transitions
  ∧ source_name (recording_transition "t2" "A" "B") = FSM_state demo
  ∧ ("transition" ∈ @_execute_parameters)
  ∧ is_Some (({["transition" := 1]} : kwargs nat) !! "transition")
  ∧ execute_transition "t2" {["transition" := 1]} demo []
    = (Raise TypeError, demo, [])
  ∧ execute_transition_to "B" {["transition" := 1]} demo []
    = (Raise TypeError, demo, []).
Proof.
  assert (recording_transition "t2" "A" "B" ∈ demo_transitions) as Hin
    by (right; left).
  assert ("transition" ∈ @_execute_parameters) as Hkey by by_evaluation.
  assert (is_Some (({["transition" := 1]} : kwargs nat) !! "transition")) as Hkw
    by (exists 1; reflexivity).
  split_and!; [exact demo_reachable|exact Hin|reflexivity|exact Hkey|exact Hkw|..];
    apply (payload_key_clash _ _ demo (recording_transition "t2" "A" "B")
             {["transition" := 1]} [] "transition" demo_reachable Hin eq_refl
             Hkey Hkw).
Defined.

Lemma plain_built : FSM_init "on" plain_states plain_transitions = Ok plain.
Proof. vm_compute. reflexivity. Qed.

Lemma hookless_transition_witness :
  reachable plain_states plain_transitions plain
  ∧ accepted_by execute_transition_parameters (∅ : kwargs nat)
  ∧ binds (∅ : kwargs nat)
  ∧ execute_transition "switch_off" ∅ plain [Entered "x" "y"]
    = (Ok (), mkFSM "off" (_state_transition_map plain), [Entered "x" "y"]).
Proof.
  assert (reachable plain_states plain_transitions plain) as Hreach
    by exact (reach_init _ _ "on" plain plain_built).
  split; [exact Hreach|]. split; [reflexivity|]. split; [reflexivity|].
  apply (hookless_transition plain_states plain_transitions plain
           (mkState "on" None None) (mkState "off" None None)
           (mkTransition "switch_off" "on" "off" None) ∅ [Entered "x" "y"]
           Hreach); try reflexivity.
  - left.
  - right; left.
  - left.
Defined.

Lemma build_without_initial_state_witness :
  _initial_state_name staged = None
  ∧ unique_state_names (_states staged)
  ∧ known_endpoints (_states staged) (_transitions staged)
  ∧ unique_edges (_transitions staged)
  ∧ unique_labels (_transitions staged)
  ∧ build staged = Raise (FSMExc IncorrectInitialState).
Proof.
  assert (unique_state_names (_states staged)) as H1
    by (unfold unique_state_names; by_evaluation).
  assert (known_endpoints (_states staged) (_transitions staged)) as H2
    by (unfold known_endpoints; by_evaluation).
  assert (unique_edges (_transitions staged)) as H3
    by (unfold unique_edges; by_evaluation).
  assert (unique_labels (_transitions staged)) as H4
    by (unfold unique_labels; by_evaluation).
  split_and!; try assumption; [reflexivity|].
  exact (proj2 (build_without_initial_state staged eq_refl) H1 H2 H3 H4).
Defined.

Lemma duplicate_named_state_witness :
  ("A" ∈ names (_states staged))
  ∧ build (add_named_state "A" None None (set_initial_state "A" staged)).2
    = Raise (FSMExc DuplicateState).
Proof.
  assert ("A" ∈ names (_states staged)) as H by by_evaluation.
  split; [exact H|].
  exact (duplicate_named_state (set_initial_state "A" staged) "A" None None H).
Defined.

Lemma add_state_twice_witness :
  build (add_state "0a1b2c3d" None None
           (add_state "0a1b2c3d" None None staged).2).2
  = Raise (FSMExc DuplicateState).
Proof.
  exact (proj2 (add_state_twice staged "0a1b2c3d" "0a1b2c3d" None None None None)
           eq_refl).
Defined.

Lemma generated_state_as_initial_witness :
  unique_state_names (_states staged)
  ∧ known_endpoints (_states staged) (_transitions staged)
  ∧ unique_edges (_transitions staged)
  ∧ unique_labels (_transitions staged)
  ∧ (_generate_random_name "state" "0a1b2c3d" ∉ names (_states staged))
  ∧ ∃ self,
      build (set_initial_state "state_0a1b2c3d"
               (add_state "0a1b2c3d" None None staged).2) = Ok self
      ∧ FSM_state self = "state_0a1b2c3d".
Proof.
  assert (unique_state_names (_states staged)) as H1
    by (unfold unique_state_names; by_evaluation).
  assert (known_endpoints (_states staged) (_transitions staged)) as H2
    by (unfold known_endpoints; by_evaluation).
  assert (unique_edges (_transitions staged)) as H3
    by (unfold unique_edges; by_evaluation).
  assert (unique_labels (_transitions staged)) as H4
    by (unfold unique_labels; by_evaluation).
  assert (_generate_random_name "state" "0a1b2c3d" ∉ names (_states staged))
    as H5 by by_evaluation.
  split_and!; try assumption.
  exact (proj2 (generated_state_as_initial staged "0a1b2c3d" None None
                  H1 H2 H3 H4 H5)).
Defined.

Lemma staged_transition_is_built_witness :
  _initial_state_name (set_initial_state "A" staged) = Some "A"
  ∧ valid_input "A" (_states staged) (_transitions staged)
  ∧ ("B" ∈ names (_states staged))
  ∧ ("A" ∈ names (_states staged))
  ∧ (("B", "A") ∉ edge <$> _transitions staged)
  ∧ (("B", _generate_random_name "transition" "0a1b2c3d")
     ∉ label <$> _transitions staged)
  ∧ ∃ self e,
      build (add_transition "0a1b2c3d" "B" "A" None
               (set_initial_state "A" staged)).2 = Ok self
      ∧ FSM_state self = "A"
      ∧ _state_transition_map self !! "B" = Some e
      ∧ transitions e !! "transition_0a1b2c3d"
        = Some (mkTransition "transition_0a1b2c3d" "B" "A" None)
      ∧ destination_states e !! "A"
        = Some (mkTransition "transition_0a1b2c3d" "B" "A" None).
Proof.
  assert (valid_input "A" (_states staged) (_transitions staged)) as H1.
  { unfold valid_input, unique_state_names, known_endpoints, unique_edges,
      unique_labels, valid_initial_state.
    split_and!; by_evaluation. }
  assert ("B" ∈ names (_states staged)) as H2 by by_evaluation.
  assert ("A" ∈ names (_states staged)) as H3 by by_evaluation.
  assert (("B", "A") ∉ edge <$> _transitions staged) as H4 by by_evaluation.
  assert (("B", _generate_random_name "transition" "0a1b2c3d")
          ∉ label <$> _transitions staged) as H5 by by_evaluation.
  split_and!; try assumption; [reflexivity|].
  exact (proj2 (staged_transition_is_built (set_initial_state "A" staged)
                  "0a1b2c3d" "B" "A" None "A" eq_refl H1 H2 H3 H4 H5)).
Defined.

Lemma message_determines_kind_witness :
  message (InvalidSource "A in transition:b" "c")
  = message (InvalidSource "A" "b in transition:c")
  ∧ kind (InvalidSource "A in transition:b" "c")
    = kind (InvalidSource "A" "b in transition:c").
Proof.
  split; [reflexivity|].
  exact (message_determines_kind (InvalidSource "A in transition:b" "c")
           (InvalidSource "A" "b in transition:c") eq_refl).
Defined.

(** A payload key named like a parameter of one operation stops that
    operation at the call and is passed on to the hooks by the other. *)
Example entry_payload_clash :
  execute_transition "t2" {["transition_name" := 1]} demo []
  = (Raise TypeError, demo, [])
  ∧ execute_transition_to "B" {["transition_name" := 1]} demo []
    = (Ok (), mkFSM "B" (_state_transition_map demo),
       [Exited "A" "A"; Ran "t2" "A"; Entered "B" "A"])
  ∧ execute_transition_to "B" {["destination_name" := 1]} demo []
    = (Raise TypeError, demo, [])
  ∧ execute_transition "t2" {["self" := 1]} demo []
    = (Raise TypeError, demo, []).
Proof. split_and!; vm_compute; reflexivity. Qed.
